(** * The Keynesian Cross / IS-LM dashboard ([models.py], [app.py])

    A shallow embedding of [KCParams], [kc_equilibrium] and [kc_locus].

    The two functions are closed-form arithmetic on Python [float]s and on a
    numpy [float64] array.  Their text is embedded over an interface
    [PyFloat] of the arithmetic operations the source uses, and read in
    [binary64]: IEEE 754 double precision, the arithmetic CPython and numpy
    run (Rocq's primitive floats, rounding to nearest even).  Every
    statement below is about what the program returns in that arithmetic.

    The second part embeds the session logic of the dashboard script
    ([app.py]): the session state with its inputs dict and baseline
    snapshot, the two buttons, and the calls into the model. *)

From Stdlib Require Import Floats ZArith List String Bool Lia.
Import ListNotations.

#[local] Set Warnings "-inexact-float".

(** ** Exceptions

    The only exception the module can raise is the [ZeroDivisionError] of
    Python's float division. *)

Inductive exn : Type :=
| ZeroDivisionError.

Inductive result (A : Type) : Type :=
| Ok (x : A)
| Raise (e : exn).

Arguments Ok {A} x.
Arguments Raise {A} e.

Definition bind {A B : Type} (m : result A) (k : A -> result B) : result B :=
  match m with
  | Ok x => k x
  | Raise e => Raise e
  end.

Declare Scope py_scope.
Delimit Scope py_scope with py.

Notation "x <- m ;; k" := (bind m (fun x => k))
  (at level 61, m at next level, right associativity) : py_scope.

(** ** The arithmetic of [float]

    The literals and operators that occur in [models.py]. *)

Class PyFloat (num : Type) : Type := {
  lit_0 : num;                    (* 0.0, the divisor Python refuses *)
  lit_1 : num;                    (* 1.0 *)
  lit_1e_9 : num;                 (* 1e-9 *)
  fadd : num -> num -> num;       (* x + y *)
  fsub : num -> num -> num;       (* x - y *)
  fmul : num -> num -> num;       (* x * y *)
  fdiv : num -> num -> num;       (* the quotient, where it is defined *)
  fabs : num -> num;              (* abs(x) *)
  flt : num -> num -> bool;       (* x < y *)
  feq : num -> num -> bool        (* x == y *)
}.

Notation "x + y" := (fadd x y) : py_scope.
Notation "x - y" := (fsub x y) : py_scope.
Notation "x * y" := (fmul x y) : py_scope.
Notation "x <? y" := (flt x y) : py_scope.
Notation "x =? y" := (feq x y) : py_scope.

(** IEEE 754 binary64. *)
#[export] Instance binary64 : PyFloat PrimFloat.float := {
  lit_0 := 0%float;
  lit_1 := 1%float;
  lit_1e_9 := 1e-9%float;
  fadd := PrimFloat.add;
  fsub := PrimFloat.sub;
  fmul := PrimFloat.mul;
  fdiv := PrimFloat.div;
  fabs := PrimFloat.abs;
  flt := PrimFloat.ltb;
  feq := PrimFloat.eqb
}.

(** ** A dict with string keys, in insertion order *)

Definition dict (V : Type) : Type := list (string * V).

Fixpoint getitem {V : Type} (d : dict V) (k : string) : option V :=
  match d with
  | [] => None
  | (k', v) :: d' => if String.eqb k k' then Some v else getitem d' k
  end.

Section Model.

Context {num : Type} `{PyFloat num}.

Open Scope py_scope.

(** ** [class KCParams] *)

Record KCParams : Type := {
  a : num;          (* Autonomous consumption *)
  c : num;          (* Marginal propensity to consume *)
  T : num;          (* Taxes *)
  G : num;          (* Government spending *)
  i : num;          (* Current interest rate *)
  i_max : num;      (* Max interest rate for charts *)
  b0 : num;         (* Autonomous investment *)
  b1 : num;         (* Marginal propensity to invest (from income Y) *)
  b2 : num          (* Investment sensitivity to interest rate i *)
}.

(** [x / y] on two Python floats raises when [y == 0.0]. *)
Definition truediv (x y : num) : result num :=
  if y =? lit_0 then Raise ZeroDivisionError else Ok (fdiv x y).

(** The denominator of the multiplier, as both functions compute it:
[[
  denom = 1.0 - p.c - p.b1
  if abs(denom) < 1e-9:
      denom = 1e-9
]] *)
Definition raw_denom (p : KCParams) : num := lit_1 - p.(c) - p.(b1).

Definition guard (denom : num) : num :=
  if fabs denom <? lit_1e_9 then lit_1e_9 else denom.

(** ** [kc_equilibrium] *)

Definition kc_equilibrium (p : KCParams) : result (dict num) :=
  let denom := lit_1 - p.(c) - p.(b1) in
  let denom := if fabs denom <? lit_1e_9 then lit_1e_9 else denom in
  let intercept := p.(a) - p.(c) * p.(T) + p.(b0) - p.(b2) * p.(i) + p.(G) in
  Y_star <- truediv intercept denom ;;
  Ok [ ("Y_star"%string, Y_star);
       ("AD_intercept"%string, intercept);
       ("AD_slope"%string, p.(c) + p.(b1)) ].

(** ** numpy: a scalar broadcast over a one-dimensional [float64] array

    Elementwise, in order; numpy's division does not raise on a zero
    divisor. *)

Definition ndarray : Type := list num.

Definition np_mul (s : num) (arr : ndarray) : ndarray :=   (* s * arr *)
  map (fun x => s * x) arr.

Definition np_rsub (s : num) (arr : ndarray) : ndarray :=  (* s - arr *)
  map (fun x => s - x) arr.

Definition np_div (arr : ndarray) (s : num) : ndarray :=   (* arr / s *)
  map (fun x => fdiv x s) arr.

(** ** [kc_locus] *)

Definition kc_locus (p : KCParams) (i_grid : ndarray) : ndarray :=
  let denom := lit_1 - p.(c) - p.(b1) in
  let denom := if fabs denom <? lit_1e_9 then lit_1e_9 else denom in
  let intercept0 := p.(a) - p.(c) * p.(T) + p.(b0) + p.(G) in
  np_div (np_rsub intercept0 (np_mul p.(b2) i_grid)) denom.

(** [dataclasses.replace(p, i=r)] *)
Definition with_i (p : KCParams) (r : num) : KCParams :=
  {| a := p.(a); c := p.(c); T := p.(T); G := p.(G); i := r;
     i_max := p.(i_max); b0 := p.(b0); b1 := p.(b1); b2 := p.(b2) |}.

(** The intercept of the aggregate-demand line and its part that does not
    depend on the interest rate, as the two functions write them. *)
Definition AD_intercept_of (p : KCParams) : num :=
  p.(a) - p.(c) * p.(T) + p.(b0) - p.(b2) * p.(i) + p.(G).

Definition intercept0_of (p : KCParams) : num :=
  p.(a) - p.(c) * p.(T) + p.(b0) + p.(G).

End Model.

Arguments KCParams num : clear implicits.
Arguments ndarray num : clear implicits.

(** ** Parameter records used below

    The default parameters of the dashboard ([DEFAULTS] in [app.py]) and
    variations of them. *)

Definition defaults64 : KCParams float :=
  {| a := 20; c := 0.6; T := 10; G := 50; i := 0.5; i_max := 4;
     b0 := 30; b1 := 0.2; b2 := 10 |}%float.

(** The parameters of the degenerate example: [c = 0.7], [b1 = 0.3]. *)
Definition degenerate64 : KCParams float :=
  {| a := 20; c := 0.7; T := 10; G := 50; i := 0.5; i_max := 4;
     b0 := 30; b1 := 0.3; b2 := 10 |}%float.

(** The defaults at another current rate and chart bound. *)
Definition other_rates64 : KCParams float :=
  {| a := 20; c := 0.6; T := 10; G := 50; i := 3; i_max := 9;
     b0 := 30; b1 := 0.2; b2 := 10 |}%float.


(** A large autonomous consumption absorbs the whole effect of the rate. *)
Definition absorbing64 : KCParams float :=
  {| a := 1e17; c := 0.5; T := 0; G := 0; i := 0; i_max := 4;
     b0 := 0; b1 := 0; b2 := 1 |}%float.

(** Finite parameters on the degenerate line [c = 0.7], [b1 = 0.3]. *)
Definition overflowing64 : KCParams float :=
  {| a := 1e300; c := 0.7; T := 0; G := 0; i := 0; i_max := 4;
     b0 := 0; b1 := 0.3; b2 := 0 |}%float.

(** The defaults at the rate [0.02]. *)
Definition low_rate64 : KCParams float :=
  {| a := 20; c := 0.6; T := 10; G := 50; i := 0.02; i_max := 4;
     b0 := 30; b1 := 0.2; b2 := 10 |}%float.

(** The defaults with a NaN propensity to consume. *)
Definition nan_propensity64 : KCParams float :=
  {| a := 20; c := nan; T := 10; G := 50; i := 0.5; i_max := 4;
     b0 := 30; b1 := 0.2; b2 := 10 |}%float.

(** Large, nearly cancelling terms: [a = b2 = 1e17] and [G = 5]. *)
Definition cancelling64 : KCParams float :=
  {| a := 1e17; c := 0; T := 0; G := 5; i := 1; i_max := 4;
     b0 := 0; b1 := 0; b2 := 1e17 |}%float.

(** Two parameter records that differ at most in [i] and [i_max]. *)
Definition agree_but_rates {num : Type} (p q : KCParams num) : Prop :=
  a p = a q /\ c p = c q /\ T p = T q /\ G p = G q /\
  b0 p = b0 q /\ b1 p = b1 q /\ b2 p = b2 q.

(** ** The dashboard script ([app.py])

    One execution of the script is a function of the session state that
    Streamlit keeps between executions and of what the widgets return in
    this execution.  The dicts the session state refers to are objects:
    they live in a heap and are reached through references, so that
    [d.copy()] and the in-place [d.update(...)] are told apart.  The two
    sample grids (built with [np.linspace] from [Xmax] and [i_max]) are
    arguments; the chart calls, which only draw, are left out. *)

Inductive app_exn : Type :=
| KeyError (k : string)           (* d[k] on a key that d lacks *)
| ModelError (e : exn)            (* an exception of models.py *)
| DanglingRef.                    (* a reference outside the heap *)

Inductive outcome (A : Type) : Type :=
| Done (x : A)
| Fail (e : app_exn).

Arguments Done {A} x.
Arguments Fail {A} e.

Definition and_then {A B : Type} (m : outcome A) (k : A -> outcome B)
  : outcome B :=
  match m with
  | Done x => k x
  | Fail e => Fail e
  end.

Declare Scope app_scope.
Delimit Scope app_scope with app.

Notation "x <- m ;; k" := (and_then m (fun x => k))
  (at level 61, m at next level, right associativity) : app_scope.
Notation "' pat <- m ;; k" := (and_then m (fun x => match x with pat => k end))
  (at level 61, pat pattern, m at next level, right associativity) : app_scope.

Definition of_model {A : Type} (m : result A) : outcome A :=
  match m with
  | Ok x => Done x
  | Raise e => Fail (ModelError e)
  end.

(** [d[k]] *)
Definition subscript {V : Type} (d : dict V) (k : string) : outcome V :=
  match getitem d k with
  | Some v => Done v
  | None => Fail (KeyError k)
  end.

(** [d[k] = v]: the value of an existing key is replaced in place, a new
    key goes last. *)
Fixpoint setitem {V : Type} (d : dict V) (k : string) (v : V) : dict V :=
  match d with
  | [] => [(k, v)]
  | (k', v') :: d' =>
      if String.eqb k k' then (k', v) :: d' else (k', v') :: setitem d' k v
  end.

(** [d.update(other)] *)
Definition update {V : Type} (d other : dict V) : dict V :=
  fold_left (fun acc kv => setitem acc (fst kv) (snd kv)) other d.

Definition ref : Type := nat.

Definition heap : Type := list (dict float).

Definition alloc (h : heap) (d : dict float) : heap * ref :=
  (h ++ [d], List.length h).

Definition load (h : heap) (r : ref) : outcome (dict float) :=
  match nth_error h r with
  | Some d => Done d
  | None => Fail DanglingRef
  end.

Fixpoint store (h : heap) (r : ref) (d : dict float) : heap :=
  match h, r with
  | [], _ => []
  | _ :: h', O => d :: h'
  | x :: h', S r' => x :: store h' r' d
  end.

(** [st.session_state.baseline]: [None], or [dict(inputs=<a dict>)]. *)
Inductive baseline_value : Type :=
| PyNone
| Snapshot (inputs : ref).

(** [st.session_state]: a key is absent until the first execution sets
    it. *)
Record session_state : Type := {
  ss_inputs : option ref;
  ss_baseline : option baseline_value
}.

Definition state : Type := (heap * session_state)%type.

Definition first_visit : state :=
  ([], {| ss_inputs := None; ss_baseline := None |}).

Definition DEFAULTS : dict float :=
  [ ("a", 20); ("c", 0.6); ("T", 10); ("G", 50); ("b0", 30); ("b1", 0.2);
    ("b2", 10); ("i", 0.5); ("i_max", 4); ("Xmax", 600) ]%string%float.

(** What the widgets return in one execution. *)
Record widgets : Type := {
  w_a : float;
  w_c : float;
  w_T : float;
  w_G : float;
  w_b0 : float;
  w_b1 : float;
  w_b2 : float;
  w_i_max : float;
  w_i : float;
  w_Xmax : float;
  capture_clicked : bool;         (* st.button("Capture baseline") *)
  reset_clicked : bool            (* st.button("Reset All") *)
}.

(** What a completed execution hands to the two charts. *)
Record frame : Type := {
  kc : dict float;
  AD : ndarray float;
  AD_b : option (ndarray float);
  LM : ndarray float;
  Yvals_IS : ndarray float;
  Yb_IS : option (ndarray float);
  LM_b : option (ndarray float)
}.

(** Lines 30-33: the session keys are created on the first execution. *)
Definition ensure_session (s : state) : heap * ref * baseline_value :=
  let '(h, ss) := s in
  let '(h, inputs) :=
    match ss_inputs ss with
    | Some r => (h, r)
    | None => alloc h DEFAULTS           (* DEFAULTS.copy() *)
    end in
  let baseline :=
    match ss_baseline ss with
    | Some b => b
    | None => PyNone
    end in
  (h, inputs, baseline).

(** Lines 52-73: each widget reads its initial value from
    [st.session_state.inputs]. *)
Definition widget_values (d : dict float) : outcome unit :=
  (_ <- subscript d "a" ;;
   _ <- subscript d "c" ;;
   _ <- subscript d "T" ;;
   _ <- subscript d "G" ;;
   _ <- subscript d "b0" ;;
   _ <- subscript d "b1" ;;
   _ <- subscript d "b2" ;;
   _ <- subscript d "i_max" ;;
   _ <- subscript d "i" ;;
   _ <- subscript d "Xmax" ;;
   Done tt)%app%string.

(** Line 80: [baseline = dict(inputs=st.session_state.inputs.copy())]. *)
Definition capture_baseline (h : heap) (inputs : ref)
  : outcome (heap * baseline_value) :=
  (d <- load h inputs ;;
   let '(h', r) := alloc h d in
   Done (h', Snapshot r))%app.

(** Lines 35-39, up to [st.rerun()], which ends the execution. *)
Definition reset_all (h : heap) : state :=
  let '(h', r) := alloc h DEFAULTS in
  (h', {| ss_inputs := Some r; ss_baseline := Some PyNone |}).

(** Line 88: [st.session_state.inputs.update(dict(a=a, c=c, ...))]. *)
Definition widget_dict (w : widgets) : dict float :=
  [ ("a", w_a w); ("c", w_c w); ("T", w_T w); ("G", w_G w); ("i", w_i w);
    ("i_max", w_i_max w); ("b0", w_b0 w); ("b1", w_b1 w); ("b2", w_b2 w);
    ("Xmax", w_Xmax w) ]%string.

Definition sync_inputs (h : heap) (inputs : ref) (w : widgets) : outcome heap :=
  (d <- load h inputs ;;
   Done (store h inputs (update d (widget_dict w))))%app.

(** Line 92. *)
Definition params_of_widgets (w : widgets) : KCParams float :=
  {| a := w_a w; c := w_c w; T := w_T w; G := w_G w; i := w_i w;
     i_max := w_i_max w; b0 := w_b0 w; b1 := w_b1 w; b2 := w_b2 w |}.

(** Lines 124 and 145: [KCParams(a=bi["a"], c=bi["c"], ...)]. *)
Definition params_of_dict (bi : dict float) : outcome (KCParams float) :=
  (va <- subscript bi "a" ;;
   vc <- subscript bi "c" ;;
   vT <- subscript bi "T" ;;
   vG <- subscript bi "G" ;;
   vi <- subscript bi "i" ;;
   vi_max <- subscript bi "i_max" ;;
   vb0 <- subscript bi "b0" ;;
   vb1 <- subscript bi "b1" ;;
   vb2 <- subscript bi "b2" ;;
   Done {| a := va; c := vc; T := vT; G := vG; i := vi; i_max := vi_max;
           b0 := vb0; b1 := vb1; b2 := vb2 |})%app%string.

(** numpy: [s + arr] and [np.full_like(arr, v)]. *)
Definition np_radd (s : float) (arr : ndarray float) : ndarray float :=
  map (fun x => (s + x)%float) arr.

Definition np_full_like (arr : ndarray float) (v : float) : ndarray float :=
  map (fun _ => v) arr.

(** Lines 115 and 126: [kc["AD_intercept"] + kc["AD_slope"] * Ygrid]. *)
Definition AD_line (res : dict float) (Ygrid : ndarray float)
  : outcome (ndarray float) :=
  (icpt <- subscript res "AD_intercept" ;;
   slope <- subscript res "AD_slope" ;;
   Done (np_radd icpt (np_mul slope Ygrid)))%app%string.

(** Lines 122-127: the dashed aggregate-demand line of the baseline. *)
Definition baseline_AD (h : heap) (baseline : baseline_value)
    (Ygrid : ndarray float) : outcome (option (ndarray float)) :=
  match baseline with
  | PyNone => Done None
  | Snapshot rb =>
      (bi <- load h rb ;;
       p_b <- params_of_dict bi ;;
       kc_b <- of_model (kc_equilibrium p_b) ;;
       AD_b <- AD_line kc_b Ygrid ;;
       Done (Some AD_b))%app
  end.

(** Lines 143-148: the dashed IS and LM curves of the baseline. *)
Definition baseline_IS_LM (h : heap) (baseline : baseline_value)
    (Ygrid igrid : ndarray float)
  : outcome (option (ndarray float * ndarray float)) :=
  match baseline with
  | PyNone => Done None
  | Snapshot rb =>
      (bi <- load h rb ;;
       p_b <- params_of_dict bi ;;
       let Yb_IS := kc_locus p_b igrid in
       i_b <- subscript bi "i" ;;
       Done (Some (Yb_IS, np_full_like Ygrid i_b)))%app%string
  end.

(** Lines 88-153: the session inputs take the widget values, the model is
    evaluated and the curves of the two charts are built. *)
Definition render (h : heap) (inputs : ref) (baseline : baseline_value)
    (w : widgets) (Ygrid igrid : ndarray float)
  : outcome (state * option frame) :=
  (h <- sync_inputs h inputs w ;;
   let params := params_of_widgets w in
   res <- of_model (kc_equilibrium params) ;;
   AD_now <- AD_line res Ygrid ;;
   _ <- subscript res "Y_star" ;;
   AD_base <- baseline_AD h baseline Ygrid ;;
   let LM_now := np_full_like Ygrid (w_i w) in
   let IS_now := kc_locus params igrid in
   _ <- subscript res "Y_star" ;;
   base <- baseline_IS_LM h baseline Ygrid igrid ;;
   Done ((h, {| ss_inputs := Some inputs; ss_baseline := Some baseline |}),
         Some {| kc := res; AD := AD_now; AD_b := AD_base;
                 LM := LM_now; Yvals_IS := IS_now;
                 Yb_IS := option_map fst base;
                 LM_b := option_map snd base |}))%app%string.

(** One execution of the script.  It ends early, without a frame, when
    "Reset All" was clicked. *)
Definition run (s : state) (w : widgets) (Ygrid igrid : ndarray float)
  : outcome (state * option frame) :=
  (let '(h, inputs, baseline) := ensure_session s in
   d <- load h inputs ;;
   _ <- widget_values d ;;
   '(h, baseline) <-
     (if capture_clicked w then capture_baseline h inputs
      else Done (h, baseline)) ;;
   if reset_clicked w then Done (reset_all h, None)
   else render h inputs baseline w Ygrid igrid)%app.

(** The session states the script can be in. *)
Inductive reachable : state -> Prop :=
| reach_first_visit : reachable first_visit
| reach_run (s s' : state) (w : widgets) (Ygrid igrid : ndarray float)
    (f : option frame) :
    reachable s -> run s w Ygrid igrid = Done (s', f) -> reachable s'.

(** The keys the widgets and the baseline overlay read. *)
Definition input_keys : list string :=
  [ "a"; "c"; "T"; "G"; "b0"; "b1"; "b2"; "i"; "i_max"; "Xmax" ]%string.

Definition has_keys (d : dict float) : Prop :=
  Forall (fun k => getitem d k <> None) input_keys.

(** The dict behind [st.session_state.inputs] and the dict inside the
    baseline, when there are such. *)
Definition inputs_dict (s : state) : option (dict float) :=
  match ss_inputs (snd s) with
  | Some r => nth_error (fst s) r
  | None => None
  end.

Definition snapshot_of (h : heap) (baseline : baseline_value)
  : option (dict float) :=
  match baseline with
  | Snapshot rb => nth_error h rb
  | PyNone => None
  end.

Definition baseline_dict (s : state) : option (dict float) :=
  match ss_baseline (snd s) with
  | Some b => snapshot_of (fst s) b
  | None => None
  end.

(** The inputs an execution starts from: the stored dict, or [DEFAULTS] on
    the first visit. *)
Definition start_inputs (s : state) : dict float :=
  match inputs_dict s with
  | Some d => d
  | None => DEFAULTS
  end.

(** The parameters a dict of inputs stands for, when it has the nine
    keys. *)
Definition params_in (d : option (dict float)) : option (KCParams float) :=
  match d with
  | Some bi =>
      match params_of_dict bi with
      | Done p => Some p
      | Fail _ => None
      end
  | None => None
  end.

(** The three curves the charts draw for parameters [p]: the
    aggregate-demand line over the income grid, the IS curve over the rate
    grid and the horizontal LM line. *)
Definition AD_curve (p : KCParams float) (Ygrid : ndarray float)
  : ndarray float :=
  np_radd (AD_intercept_of p) (np_mul (c p + b1 p)%float Ygrid).

Definition LM_curve (p : KCParams float) (Ygrid : ndarray float)
  : ndarray float :=
  np_full_like Ygrid (i p).

(** A frame shows the curves of [p] solid and, when there is a baseline
    [pb], the curves of [pb] dashed. *)
Definition frame_shows (f : frame) (p : KCParams float)
    (pb : option (KCParams float)) (Ygrid igrid : ndarray float) : Prop :=
  kc_equilibrium p = Ok (kc f) /\
  AD f = AD_curve p Ygrid /\
  Yvals_IS f = kc_locus p igrid /\
  LM f = LM_curve p Ygrid /\
  AD_b f = option_map (fun q => AD_curve q Ygrid) pb /\
  Yb_IS f = option_map (fun q => kc_locus q igrid) pb /\
  LM_b f = option_map (fun q => LM_curve q Ygrid) pb.

(** The state [render] works on: the inputs reference holds [d0]. *)
Definition session_ok (h : heap) (inputs : ref) (baseline : baseline_value)
    (d0 : dict float) : Prop :=
  nth_error h inputs = Some d0 /\ has_keys d0 /\
  forall rb, baseline = Snapshot rb ->
    rb <> inputs /\ exists db, nth_error h rb = Some db /\ has_keys db.

(** Every reference of the session points into the heap at a dict with the
    ten input keys, and the baseline is an object of its own. *)
Definition well_formed (s : state) : Prop :=
  (forall r, ss_inputs (snd s) = Some r ->
     exists d, nth_error (fst s) r = Some d /\ has_keys d) /\
  (forall rb, ss_baseline (snd s) = Some (Snapshot rb) ->
     (exists d, nth_error (fst s) rb = Some d /\ has_keys d) /\
     ss_inputs (snd s) <> Some rb).

(** Widget values used below: the defaults with "Capture baseline"
    clicked, and values on the degenerate line [c + b1 = 1] without a
    click. *)
Definition capture_click : widgets :=
  {| w_a := 20; w_c := 0.6; w_T := 10; w_G := 50; w_b0 := 30; w_b1 := 0.2;
     w_b2 := 10; w_i_max := 4; w_i := 0.5; w_Xmax := 600;
     capture_clicked := true; reset_clicked := false |}%float.

Definition singular_widgets : widgets :=
  {| w_a := 20; w_c := 0.5; w_T := 10; w_G := 50; w_b0 := 30; w_b1 := 0.5;
     w_b2 := 10; w_i_max := 4; w_i := 1; w_Xmax := 600;
     capture_clicked := false; reset_clicked := false |}%float.

Definition reset_click : widgets :=
  {| w_a := 20; w_c := 0.5; w_T := 10; w_G := 50; w_b0 := 30; w_b1 := 0.25;
     w_b2 := 10; w_i_max := 4; w_i := 1; w_Xmax := 600;
     capture_clicked := true; reset_clicked := true |}%float.

(** The state and the frame an execution ends with. *)
Definition after (o : outcome (state * option frame)) : state :=
  match o with
  | Done (s, _) => s
  | Fail _ => first_visit
  end.

Definition empty_frame : frame :=
  {| kc := []; AD := []; AD_b := None; LM := []; Yvals_IS := [];
     Yb_IS := None; LM_b := None |}.

Definition shown (o : outcome (state * option frame)) : frame :=
  match o with
  | Done (_, Some f) => f
  | _ => empty_frame
  end.

(** The session after a first execution in which the baseline was
    captured. *)
Definition captured_visit : state :=
  after (run first_visit capture_click [] []).

(** ** Round to nearest, ties to even, as a function on rationals

    The binary64 operations are specified in [SpecFloat] by bit shifts on
    a mantissa with a round bit and a sticky bit.  To compare two results
    they are read here as integers: a binary64 value [x] has the key
    [x / 2 ^ emin], an integer since every double is a multiple of
    [2 ^ emin = 2 ^ (-1074)], and each operation is the exact operation on
    keys followed by the rounding [ROUNDZ].  These definitions serve the
    monotonicity proofs only; the program is embedded above. *)

Section RoundingDefinitions.

Open Scope Z_scope.

(** The quotient [a / b] cut to an integer, with the two bits that place the
    rest against one half. *)
Definition enc (a b : Z) : shr_record :=
  let r := a mod b in
  {| shr_m := a / b;
     shr_r := b <=? 2 * r;
     shr_s := negb (r =? 0) && negb (2 * r =? b) |}.

(** The order of truncated quotients: mantissa, then round bit, then sticky
    bit. *)
Definition tcode (mrs : shr_record) : Z :=
  4 * shr_m mrs + (if shr_r mrs then 2 else 0) + (if shr_s mrs then 1 else 0).

Definition rne (mrs : shr_record) : Z :=
  round_nearest_even (shr_m mrs) (loc_of_shr_record mrs).

(** [a / b] rounded to the nearest integer, ties to even. *)
Definition RN (a b : Z) : Z := rne (enc a b).

(** The key of an infinity: above every finite key. *)
Definition KINF : Z := 2 ^ 2100.

(** [A / B] rounded to 53 significant bits, or to an integer when it has
    fewer. *)
Definition RND (A B : Z) : Z :=
  let n := Z.max (Zdigits2 (A / B) - 53) 0 in RN A (B * 2 ^ n) * 2 ^ n.

(** The largest finite double has the key [(2 ^ 53 - 1) * 2 ^ 2045]. *)
Definition overflow_to_inf (r : Z) : Z := if r <? 2 ^ 2098 then r else KINF.

Definition ROUND (A B : Z) : Z := overflow_to_inf (RND A B).

Definition ROUNDZ (A B : Z) : Z :=
  if 0 <=? A then ROUND A B else - ROUND (- A) B.

(** The key of a binary64 value; both zeros have the key [0]. *)
Definition key (x : spec_float) : Z :=
  match x with
  | S754_zero _ => 0
  | S754_infinity s => cond_Zopp s KINF
  | S754_nan => 0
  | S754_finite s m e => cond_Zopp s (Z.pos m * 2 ^ (e + 1074))
  end.

(** An operation on finite keys, extended to the two infinities. *)
Definition clamp (f : Z -> Z) (k : Z) : Z :=
  if KINF <=? k then KINF else if k <=? - KINF then - KINF else f k.

Definition finite_or_zero (x : spec_float) : Prop :=
  match x with S754_zero _ | S754_finite _ _ _ => True | _ => False end.

End RoundingDefinitions.

(** ** Facts that hold under every interpretation of the arithmetic *)

Section ModelFacts.

Context {num : Type} `{PyFloat num}.

Open Scope py_scope.

Lemma kc_equilibrium_unfold (p : KCParams num) :
  kc_equilibrium p =
  (Y_star <- truediv (AD_intercept_of p) (guard (raw_denom p)) ;;
   Ok [ ("Y_star"%string, Y_star);
        ("AD_intercept"%string, AD_intercept_of p);
        ("AD_slope"%string, p.(c) + p.(b1)) ]).
Proof. reflexivity. Qed.

(** Once the divisor is known not to compare equal to [0.0], the call
    returns the three-key dict. *)
Lemma kc_equilibrium_ok (p : KCParams num) :
  (guard (raw_denom p) =? lit_0) = false ->
  kc_equilibrium p =
  Ok [ ("Y_star"%string, fdiv (AD_intercept_of p) (guard (raw_denom p)));
       ("AD_intercept"%string, AD_intercept_of p);
       ("AD_slope"%string, p.(c) + p.(b1)) ].
Proof.
  intros Hnz. rewrite kc_equilibrium_unfold.
  unfold truediv. rewrite Hnz. reflexivity.
Qed.

Lemma guard_cases (d : num) :
  ((fabs d <? lit_1e_9) = true /\ guard d = lit_1e_9) \/
  ((fabs d <? lit_1e_9) = false /\ guard d = d).
Proof.
  unfold guard. destruct (fabs d <? lit_1e_9); [left | right]; split; reflexivity.
Qed.

(** The three broadcasts of [kc_locus] fuse into one pass over the grid. *)
Lemma kc_locus_map (p : KCParams num) (i_grid : ndarray num) :
  kc_locus p i_grid =
  map (fun ik => fdiv (intercept0_of p - p.(b2) * ik) (guard (raw_denom p)))
      i_grid.
Proof.
  unfold kc_locus, np_div, np_rsub, np_mul.
  rewrite !map_map. reflexivity.
Qed.

Lemma kc_locus_length (p : KCParams num) (i_grid : ndarray num) :
  List.length (kc_locus p i_grid) = List.length i_grid.
Proof.
  unfold kc_locus, np_div, np_rsub, np_mul.
  now rewrite !length_map.
Qed.

Lemma kc_locus_nth_error (p : KCParams num) (i_grid : ndarray num) (k : nat) :
  nth_error (kc_locus p i_grid) k =
  option_map
    (fun ik => fdiv (intercept0_of p - p.(b2) * ik) (guard (raw_denom p)))
    (nth_error i_grid k).
Proof.
  rewrite kc_locus_map. apply nth_error_map.
Qed.


Lemma raw_denom_with_i (p : KCParams num) (r : num) :
  raw_denom (with_i p r) = raw_denom p.
Proof. reflexivity. Qed.

End ModelFacts.

(** ** Comparisons of binary64 values

    The primitive comparisons are specified on [spec_float], the
    sign/mantissa/exponent view of a double. *)

Section Binary64.

Open Scope float_scope.

Lemma SFeqb_zero_inv (x : spec_float) :
  SFeqb x (S754_zero false) = true -> exists s, x = S754_zero s.
Proof.
  destruct x as [s | s | | s m e]; cbn; try discriminate.
  - intros _. now exists s.
  - destruct s; discriminate.
  - destruct s; discriminate.
Qed.

(** A double that compares equal to [0.0] has absolute value [+0.0]. *)
Lemma eqb_zero_abs (d : float) :
  (d =? 0) = true -> Prim2SF (abs d) = S754_zero false.
Proof.
  rewrite FloatAxioms.eqb_spec. change (Prim2SF 0) with (S754_zero false).
  intros Hz. apply SFeqb_zero_inv in Hz as [s Hs].
  rewrite FloatAxioms.abs_spec, Hs. reflexivity.
Qed.

(** The divisor after the guard never compares equal to [0.0]: a zero of
    either sign is below [1e-9] and is replaced, and [1e-9] is not zero. *)
Lemma binary64_guard_nonzero (d : float) :
  (guard d =? 0) = false.
Proof.
  destruct (guard_cases d) as [[_ ->] | [Hge ->]].
  - reflexivity.
  - destruct (d =? 0) eqn:Hz; [| reflexivity].
    apply eqb_zero_abs in Hz.
    cbn in Hge. rewrite FloatAxioms.ltb_spec, Hz in Hge.
    vm_compute in Hge. discriminate.
Qed.

Lemma SFltb_window (m1 m2 : positive) (e1 e2 : Z) (x : spec_float) :
  (e2 < e1)%Z ->
  SFltb (S754_finite false m1 e1) x = true ->
  SFltb x (S754_finite false m2 e2) = false.
Proof.
  intros He. unfold SFltb.
  destruct x as [s | s | | s m e]; cbn; try discriminate.
  - destruct s; intros Hx; [discriminate Hx | reflexivity].
  - destruct s; [discriminate |].
    assert (Hgt : (e1 <= e)%Z -> (e ?= e2)%Z = Gt)
      by (intros Hle; apply Z.compare_gt_iff; lia).
    destruct (Z.compare_spec e1 e) as [Heq | Hlt | Hlt]; intros Hx;
      [rewrite Hgt by lia; reflexivity
      |rewrite Hgt by lia; reflexivity
      |discriminate Hx].
Qed.

(** A denominator whose magnitude exceeds [0.01] is not below [1e-9]. *)
Lemma away_from_zero_no_guard (d : float) :
  (0.01 <? abs d) = true -> (abs d <? 1e-9) = false.
Proof.
  rewrite !FloatAxioms.ltb_spec.
  replace (Prim2SF 0.01) with (S754_finite false 5764607523034235 (-59))
    by (vm_compute; reflexivity).
  replace (Prim2SF 1e-9) with (S754_finite false 4835703278458517 (-82))
    by (vm_compute; reflexivity).
  apply SFltb_window. lia.
Qed.

End Binary64.

(** ** The program on binary64 *)

Section Binary64Claims.

Open Scope string_scope.
Open Scope float_scope.

(** Under binary64 [kc_equilibrium] returns for every argument: the divisor
    it reaches is never a zero. *)
Lemma kc_equilibrium_returns64 (p : KCParams float) :
  kc_equilibrium p =
  Ok [ ("Y_star", AD_intercept_of p / guard (raw_denom p));
       ("AD_intercept", AD_intercept_of p);
       ("AD_slope", c p + b1 p) ].
Proof.
  exact (kc_equilibrium_ok p (binary64_guard_nonzero (raw_denom p))).
Qed.

(** Python's division does raise on a zero of either sign, and without the
    guard the solver would meet one at [c = b1 = 0.5]. *)
Example truediv_zero_raises :
  truediv 1 0 = Raise ZeroDivisionError /\
  truediv 1 (-0) = Raise ZeroDivisionError /\
  truediv 90 (1 - 0.5 - 0.5) = Raise ZeroDivisionError /\
  truediv 90 (guard (1 - 0.5 - 0.5)) = Ok 90000000000.
Proof. repeat split; vm_compute; reflexivity. Qed.

(** C1. When the denominator [1 - c - b1] has magnitude above [0.01], no
    epsilon is substituted and [kc_equilibrium] returns
    [Y_star = (a - c*T + b0 - b2*i + G) / (1 - c - b1)], with the operations
    in the order the source writes them. *)
Theorem C1_Y_star_closed_form (p : KCParams float) :
  (0.01 <? abs (1 - c p - b1 p)) = true ->
  exists r,
    kc_equilibrium p = Ok r /\
    getitem r "Y_star" =
    Some ((a p - c p * T p + b0 p - b2 p * i p + G p) / (1 - c p - b1 p)).
Proof.
  intros Hfar. apply away_from_zero_no_guard in Hfar.
  eexists. split; [apply kc_equilibrium_returns64 |].
  cbn [getitem String.eqb Ascii.eqb Bool.eqb].
  unfold guard, raw_denom, AD_intercept_of. cbn [fabs flt lit_1e_9 lit_1 fsub binary64].
  rewrite Hfar. reflexivity.
Qed.

Lemma C1_witness :
  (0.01 <? abs (1 - c defaults64 - b1 defaults64)) = true /\
  exists r,
    kc_equilibrium defaults64 = Ok r /\
    getitem r "Y_star" =
    Some ((a defaults64 - c defaults64 * T defaults64 + b0 defaults64
           - b2 defaults64 * i defaults64 + G defaults64)
          / (1 - c defaults64 - b1 defaults64)).
Proof.
  split; [reflexivity | apply (C1_Y_star_closed_form defaults64); reflexivity].
Defined.

(** C2. When [|1 - c - b1| < 1e-9], [kc_equilibrium] does not raise and
    returns [Y_star = intercept / 1e-9]: the divisor is the positive
    constant [1e-9] whatever the sign of [1 - c - b1]. *)
Theorem C2_degenerate_epsilon (p : KCParams float) :
  (abs (1 - c p - b1 p) <? 1e-9) = true ->
  exists r,
    kc_equilibrium p = Ok r /\
    getitem r "Y_star" =
    Some ((a p - c p * T p + b0 p - b2 p * i p + G p) / 1e-9).
Proof.
  intros Hnear.
  eexists. split; [apply kc_equilibrium_returns64 |].
  cbn [getitem String.eqb Ascii.eqb Bool.eqb].
  unfold guard, raw_denom, AD_intercept_of. cbn [fabs flt lit_1e_9 lit_1 fsub binary64].
  rewrite Hnear. reflexivity.
Qed.

Lemma C2_witness :
  (abs (1 - c degenerate64 - b1 degenerate64) <? 1e-9) = true /\
  exists r,
    kc_equilibrium degenerate64 = Ok r /\
    getitem r "Y_star" =
    Some ((a degenerate64 - c degenerate64 * T degenerate64 + b0 degenerate64
           - b2 degenerate64 * i degenerate64 + G degenerate64) / 1e-9).
Proof.
  split; [reflexivity | apply (C2_degenerate_epsilon degenerate64); reflexivity].
Defined.

(** At [c = 0.7], [b1 = 0.3] the double [1.0 - 0.7 - 0.3] is [2^-54]; with
    [b1] a little larger the denominator is negative, and the divisor is
    the same positive [1e-9]. *)
Example degenerate64_denominators :
  raw_denom degenerate64 = 0x1p-54 /\
  guard (raw_denom degenerate64) = 1e-9 /\
  (1 - 0.7 - 0.3000000001 <? 0) = true /\
  guard (1 - 0.7 - 0.3000000001) = 1e-9.
Proof. repeat split; vm_compute; reflexivity. Qed.

(** C3. [kc_locus] returns as many values as the grid has rates, in the
    grid's order: the [k]-th is [(intercept0 - b2 * i_k) / denom] with
    [intercept0 = a - c*T + b0 + G] and [denom = 1 - c - b1], replaced by
    [1e-9] when [|denom| < 1e-9]. *)
Theorem C3_locus_pointwise (p : KCParams float) (i_grid : ndarray float) :
  List.length (kc_locus p i_grid) = List.length i_grid /\
  forall k : nat,
    nth_error (kc_locus p i_grid) k =
    option_map
      (fun i_k =>
         (a p - c p * T p + b0 p + G p - b2 p * i_k)
         / (if abs (1 - c p - b1 p) <? 1e-9 then 1e-9 else 1 - c p - b1 p))
      (nth_error i_grid k).
Proof.
  split; [apply kc_locus_length |].
  intros k. exact (kc_locus_nth_error p i_grid k).
Qed.

(** C7. The worked example: with the dashboard defaults the denominator is
    [0.2], the intercept [89] and [Y_star = 445.0]; over the grid [[0, 1]]
    the rate-free intercept is [94] and the locus is [[470.0, 420.0]]. *)
Theorem C7_worked_example :
  raw_denom defaults64 = 0.2 /\
  kc_equilibrium defaults64 =
  Ok [ ("Y_star", 445); ("AD_intercept", 89); ("AD_slope", 0.6 + 0.2) ] /\
  intercept0_of defaults64 = 94 /\
  kc_locus defaults64 [0; 1] = [470; 420].
Proof. repeat split; vm_compute; reflexivity. Qed.

(** C8. For every argument the returned [AD_slope] is [c + b1] and the
    returned [AD_intercept] is [a - c*T + b0 - b2*i + G]; the guard on the
    denominator does not enter either. *)
Theorem C8_slope_and_intercept (p : KCParams float) :
  exists r,
    kc_equilibrium p = Ok r /\
    getitem r "AD_slope" = Some (c p + b1 p) /\
    getitem r "AD_intercept" =
    Some (a p - c p * T p + b0 p - b2 p * i p + G p).
Proof.
  eexists. split; [apply kc_equilibrium_returns64 |].
  split; reflexivity.
Qed.

(** C10. [kc_locus] reads neither [i] nor [i_max], and [kc_equilibrium] does
    not read [i_max]: parameters that differ only there give identical
    results. *)
Theorem C10_rate_fields_unused (p q : KCParams float) :
  agree_but_rates p q ->
  (forall i_grid : ndarray float, kc_locus p i_grid = kc_locus q i_grid) /\
  (i p = i q -> kc_equilibrium p = kc_equilibrium q).
Proof.
  destruct p as [pa pc pT pG pi pm pb0 pb1 pb2].
  destruct q as [qa qc qT qG qi qm qb0 qb1 qb2].
  unfold agree_but_rates. cbn [a c T G i b0 b1 b2].
  intros (-> & -> & -> & -> & -> & -> & ->).
  split; [reflexivity | intros ->; reflexivity].
Qed.

Lemma C10_witness :
  agree_but_rates defaults64 other_rates64 /\
  (forall i_grid : ndarray float,
      kc_locus defaults64 i_grid = kc_locus other_rates64 i_grid) /\
  (i defaults64 = i (with_i other_rates64 0.5) ->
   kc_equilibrium defaults64 = kc_equilibrium (with_i other_rates64 0.5)).
Proof.
  assert (Hagree : agree_but_rates defaults64 other_rates64)
    by (repeat split; reflexivity).
  split; [exact Hagree |].
  split.
  - apply (C10_rate_fields_unused defaults64 other_rates64 Hagree).
  - apply (C10_rate_fields_unused defaults64 (with_i other_rates64 0.5)).
    repeat split; reflexivity.
Defined.

(** *** Where rounding shows *)


(** With [b2 = 1 > 0] and [denom = 0.5 > 0], raising [i] from [0] to [1]
    leaves [Y_star] at [2e17]: it does not strictly decrease. *)
Lemma C5_counterexample :
  (0 <? b2 absorbing64) = true /\
  (0 <? 1 - c absorbing64 - b1 absorbing64) = true /\
  (0 <? 1) = true /\
  (exists r1 r2 y1 y2,
      kc_equilibrium (with_i absorbing64 0) = Ok r1 /\
      kc_equilibrium (with_i absorbing64 1) = Ok r2 /\
      getitem r1 "Y_star" = Some y1 /\
      getitem r2 "Y_star" = Some y2 /\
      y1 = 2e17 /\ y2 = 2e17 /\
      (y2 <? y1) = false).
Proof.
  repeat split; try reflexivity.
  do 4 eexists.
  split; [apply kc_equilibrium_returns64 |].
  split; [apply kc_equilibrium_returns64 |].
  repeat split; vm_compute; reflexivity.
Qed.

(** The quotient [1e300 / 1e-9] exceeds the largest double: every
    parameter is finite and [Y_star] is [infinity]. *)
Lemma C6_counterexample :
  forallb is_finite
    [a overflowing64; c overflowing64; T overflowing64; G overflowing64;
     i overflowing64; i_max overflowing64; b0 overflowing64;
     b1 overflowing64; b2 overflowing64] = true /\
  (exists r,
      kc_equilibrium overflowing64 = Ok r /\
      getitem r "Y_star" = Some infinity) /\
  is_finite infinity = false.
Proof.
  split; [vm_compute; reflexivity |].
  split; [| vm_compute; reflexivity].
  eexists. split; [apply kc_equilibrium_returns64 | vm_compute; reflexivity].
Qed.

(** The denominator is [0.2], far from the guard, and the returned
    [Y_star] is one place below [AD_intercept + AD_slope * Y_star]. *)
Lemma C9_counterexample :
  (abs (1 - c low_rate64 - b1 low_rate64) <? 1e-9) = false /\
  (exists r Y I s,
      kc_equilibrium low_rate64 = Ok r /\
      getitem r "Y_star" = Some Y /\
      getitem r "AD_intercept" = Some I /\
      getitem r "AD_slope" = Some s /\
      Y = 468.99999999999994 /\
      I + s * Y = 469 /\
      (Y =? I + s * Y) = false) /\
  468.99999999999994 <> 469.
Proof.
  split; [vm_compute; reflexivity |].
  split.
  - do 4 eexists.
    split; [apply kc_equilibrium_returns64 |].
    repeat split; vm_compute; reflexivity.
  - intros Heq.
    apply (f_equal (fun x => x =? 469)) in Heq.
    vm_compute in Heq. discriminate Heq.
Qed.

(** C6. Neither function raises: [kc_equilibrium] returns a dict for every
    argument because its divisor never compares equal to zero, and
    [kc_locus] returns one value per rate.  (Nothing is said about the
    size of [Y_star].) *)
Theorem C6_never_raises (p : KCParams float) (i_grid : ndarray float) :
  (exists r y, kc_equilibrium p = Ok r /\ getitem r "Y_star" = Some y) /\
  (forall e : exn, kc_equilibrium p <> Raise e) /\
  (guard (raw_denom p) =? 0) = false /\
  (exists ys : ndarray float,
      kc_locus p i_grid = ys /\ List.length ys = List.length i_grid).
Proof.
  split; [| split; [| split]].
  - do 2 eexists. split; [apply kc_equilibrium_returns64 | reflexivity].
  - intros e. rewrite kc_equilibrium_returns64. discriminate.
  - apply binary64_guard_nonzero.
  - eexists. split; [reflexivity | apply kc_locus_length].
Qed.

End Binary64Claims.

(** ** Dicts and the heap *)

Section DictFacts.

Context {V : Type}.

Lemma getitem_setitem (d : dict V) (k k' : string) (v : V) :
  getitem (setitem d k v) k' =
  if String.eqb k' k then Some v else getitem d k'.
Proof.
  induction d as [| [k0 v0] d IH]; cbn [setitem getitem].
  - reflexivity.
  - destruct (String.eqb_spec k k0) as [-> | Hk]; cbn [getitem].
    + destruct (String.eqb k' k0); reflexivity.
    + rewrite IH.
      destruct (String.eqb_spec k' k0) as [-> | Hk']; [| reflexivity].
      destruct (String.eqb_spec k0 k) as [E | _]; [| reflexivity].
      symmetry in E. contradiction.
Qed.

Lemma getitem_setitem_same (d : dict V) (k : string) (v : V) :
  getitem (setitem d k v) k = Some v.
Proof. rewrite getitem_setitem, String.eqb_refl. reflexivity. Qed.

Lemma getitem_setitem_other (d : dict V) (k k' : string) (v : V) :
  k' <> k -> getitem (setitem d k v) k' = getitem d k'.
Proof.
  intros Hne. rewrite getitem_setitem.
  destruct (String.eqb_spec k' k); [contradiction | reflexivity].
Qed.

Lemma update_cons (d : dict V) (kv : string * V) (other : dict V) :
  update d (kv :: other) = update (setitem d (fst kv) (snd kv)) other.
Proof. reflexivity. Qed.

(** A key that [other] does not set keeps its value. *)
Lemma getitem_update_notin (other d : dict V) (k : string) :
  ~ In k (map fst other) -> getitem (update d other) k = getitem d k.
Proof.
  revert d. induction other as [| [k0 v0] other IH]; intros d Hnot.
  - reflexivity.
  - rewrite update_cons, IH; cbn [fst snd].
    + apply getitem_setitem_other. intros ->. apply Hnot. left. reflexivity.
    + intros Hin. apply Hnot. right. exact Hin.
Qed.

(** A key that [other] sets once has the value [other] gives it. *)
Lemma getitem_update_in (other d : dict V) (k : string) (v : V) :
  NoDup (map fst other) -> In (k, v) other ->
  getitem (update d other) k = Some v.
Proof.
  revert d. induction other as [| [k0 v0] other IH]; intros d Hnd Hin.
  - destruct Hin.
  - cbn [map fst] in Hnd. inversion Hnd as [| ? ? Hk0 Hnd']; subst.
    rewrite update_cons. cbn [fst snd]. destruct Hin as [Heq | Hin].
    + inversion Heq; subst. rewrite getitem_update_notin by exact Hk0.
      apply getitem_setitem_same.
    + apply IH; assumption.
Qed.

(** [update] never removes a key. *)
Lemma getitem_update_some (other d : dict V) (k : string) :
  getitem d k <> None -> getitem (update d other) k <> None.
Proof.
  revert d. induction other as [| [k0 v0] other IH]; intros d Hk.
  - exact Hk.
  - rewrite update_cons. cbn [fst snd]. apply IH. rewrite getitem_setitem.
    destruct (String.eqb k k0); [discriminate | exact Hk].
Qed.

End DictFacts.

Section HeapFacts.

Lemma store_length (h : heap) (r : ref) (d : dict float) :
  List.length (store h r d) = List.length h.
Proof.
  revert r. induction h as [| x h IH]; intros [| r]; cbn [store List.length];
    try reflexivity.
  now rewrite IH.
Qed.

Lemma nth_error_store_same (h : heap) (r : ref) (d x : dict float) :
  nth_error h r = Some x -> nth_error (store h r d) r = Some d.
Proof.
  revert r. induction h as [| y h IH]; intros [| r]; cbn; try discriminate.
  - reflexivity.
  - apply IH.
Qed.

Lemma nth_error_store_other (h : heap) (r r' : ref) (d : dict float) :
  r' <> r -> nth_error (store h r d) r' = nth_error h r'.
Proof.
  revert r r'. induction h as [| y h IH]; intros [| r] [| r'] Hne; cbn;
    try reflexivity.
  - contradiction.
  - apply IH. intros ->. apply Hne. reflexivity.
Qed.

Lemma nth_error_alloc_new (h : heap) (d : dict float) :
  nth_error (fst (alloc h d)) (snd (alloc h d)) = Some d.
Proof.
  cbn [alloc fst snd]. rewrite nth_error_app2 by apply Nat.le_refl.
  rewrite Nat.sub_diag. reflexivity.
Qed.

Lemma nth_error_alloc_old (h : heap) (d x : dict float) (r : ref) :
  nth_error h r = Some x -> nth_error (fst (alloc h d)) r = Some x.
Proof.
  intros Hr. cbn [alloc fst]. rewrite nth_error_app1; [exact Hr |].
  apply nth_error_Some. rewrite Hr. discriminate.
Qed.

Lemma alloc_fresh (h : heap) (d x : dict float) (r : ref) :
  nth_error h r = Some x -> r <> snd (alloc h d).
Proof.
  intros Hr ->. cbn [alloc snd] in Hr.
  assert (Hlt : (List.length h < List.length h)%nat)
    by (apply nth_error_Some; rewrite Hr; discriminate).
  lia.
Qed.

End HeapFacts.

(** ** One execution of the script *)

Section ScriptFacts.

Open Scope string_scope.

Lemma has_keys_getitem (d : dict float) (k : string) :
  has_keys d -> In k input_keys -> exists v, getitem d k = Some v.
Proof.
  intros Hd Hk. unfold has_keys in Hd. rewrite Forall_forall in Hd.
  specialize (Hd k Hk). destruct (getitem d k) as [v |]; [| contradiction].
  now exists v.
Qed.

Lemma has_keys_DEFAULTS : has_keys DEFAULTS.
Proof. repeat constructor; discriminate. Qed.

Lemma has_keys_update (d other : dict float) :
  has_keys d -> has_keys (update d other).
Proof.
  unfold has_keys. rewrite !Forall_forall. intros Hd k Hk.
  apply getitem_update_some. apply Hd. exact Hk.
Qed.

Ltac key_value Hd k v Hv :=
  destruct (has_keys_getitem _ k Hd ltac:(cbn; tauto)) as [v Hv].

(** The widgets find their initial values in a dict with the ten keys. *)
Lemma widget_values_ok (d : dict float) :
  has_keys d -> widget_values d = Done tt.
Proof.
  intros Hd. unfold widget_values, subscript.
  key_value Hd "a" v1 H1. key_value Hd "c" v2 H2. key_value Hd "T" v3 H3.
  key_value Hd "G" v4 H4. key_value Hd "b0" v5 H5. key_value Hd "b1" v6 H6.
  key_value Hd "b2" v7 H7. key_value Hd "i_max" v8 H8. key_value Hd "i" v9 H9.
  key_value Hd "Xmax" v10 H10.
  rewrite H1, H2, H3, H4, H5, H6, H7, H8, H9, H10. reflexivity.
Qed.

Lemma params_of_dict_ok (d : dict float) :
  has_keys d -> exists p, params_of_dict d = Done p.
Proof.
  intros Hd. unfold params_of_dict, subscript.
  key_value Hd "a" v1 H1. key_value Hd "c" v2 H2. key_value Hd "T" v3 H3.
  key_value Hd "G" v4 H4. key_value Hd "b0" v5 H5. key_value Hd "b1" v6 H6.
  key_value Hd "b2" v7 H7. key_value Hd "i_max" v8 H8. key_value Hd "i" v9 H9.
  rewrite H1, H2, H3, H4, H5, H6, H7, H8, H9. cbn [and_then]. eexists. reflexivity.
Qed.

Lemma params_of_dict_i (d : dict float) (p : KCParams float) :
  params_of_dict d = Done p -> subscript d "i" = Done (i p).
Proof.
  unfold params_of_dict, subscript.
  destruct (getitem d "a"); [| discriminate].
  destruct (getitem d "c"); [| discriminate].
  destruct (getitem d "T"); [| discriminate].
  destruct (getitem d "G"); [| discriminate].
  destruct (getitem d "i"); [| discriminate].
  destruct (getitem d "i_max"); [| discriminate].
  destruct (getitem d "b0"); [| discriminate].
  destruct (getitem d "b1"); [| discriminate].
  destruct (getitem d "b2"); [| discriminate].
  cbn [and_then]. intros Hp. inversion Hp. reflexivity.
Qed.

Lemma widget_dict_keys (w : widgets) :
  NoDup (map fst (widget_dict w)).
Proof.
  cbn [widget_dict map fst].
  repeat (constructor; [cbn [In]; intuition discriminate |]). constructor.
Qed.

(** After line 88 the session inputs read back as the widget values. *)
Lemma params_of_synced (d : dict float) (w : widgets) :
  params_of_dict (update d (widget_dict w)) = Done (params_of_widgets w).
Proof.
  unfold params_of_dict, subscript.
  rewrite (getitem_update_in (widget_dict w) d "a" (w_a w)),
          (getitem_update_in (widget_dict w) d "c" (w_c w)),
          (getitem_update_in (widget_dict w) d "T" (w_T w)),
          (getitem_update_in (widget_dict w) d "G" (w_G w)),
          (getitem_update_in (widget_dict w) d "i" (w_i w)),
          (getitem_update_in (widget_dict w) d "i_max" (w_i_max w)),
          (getitem_update_in (widget_dict w) d "b0" (w_b0 w)),
          (getitem_update_in (widget_dict w) d "b1" (w_b1 w)),
          (getitem_update_in (widget_dict w) d "b2" (w_b2 w));
    try apply widget_dict_keys; try (cbn [widget_dict In]; tauto).
Qed.

(** The line drawn from the dict that [kc_equilibrium] returns. *)
Lemma AD_line_of_equilibrium (p : KCParams float) (Ygrid : ndarray float) :
  exists res,
    kc_equilibrium p = Ok res /\
    AD_line res Ygrid = Done (AD_curve p Ygrid) /\
    exists y, subscript res "Y_star" = Done y.
Proof.
  eexists. split; [apply kc_equilibrium_returns64 |].
  split; [reflexivity | eexists; reflexivity].
Qed.

Lemma baseline_curves_ok (h : heap) (baseline : baseline_value)
    (Ygrid igrid : ndarray float) :
  (forall rb, baseline = Snapshot rb ->
     exists db, nth_error h rb = Some db /\ has_keys db) ->
  baseline_AD h baseline Ygrid =
  Done (option_map (fun q => AD_curve q Ygrid)
          (params_in (snapshot_of h baseline))) /\
  baseline_IS_LM h baseline Ygrid igrid =
  Done (option_map (fun q => (kc_locus q igrid, LM_curve q Ygrid))
          (params_in (snapshot_of h baseline))).
Proof.
  intros Hb. destruct baseline as [| rb]; [split; reflexivity |].
  destruct (Hb rb eq_refl) as (db & Hrb & Hkeys).
  destruct (params_of_dict_ok db Hkeys) as [pb Hpb].
  destruct (AD_line_of_equilibrium pb Ygrid) as (res & Hres & HAD & _).
  unfold baseline_AD, baseline_IS_LM, load, params_in, snapshot_of.
  rewrite Hrb. cbn [and_then]. rewrite Hpb. cbn [and_then].
  rewrite Hres. cbn [of_model and_then]. rewrite HAD. cbn [and_then].
  rewrite (params_of_dict_i db pb Hpb). split; reflexivity.
Qed.

(** Lines 88-153 from a state in which the references are sound: the
    execution completes, only the inputs object changes, and the frame
    shows the widget parameters with the snapshot as it stood. *)
Lemma render_ok (h : heap) (inputs : ref) (baseline : baseline_value)
    (d0 : dict float) (w : widgets) (Ygrid igrid : ndarray float) :
  session_ok h inputs baseline d0 ->
  exists f,
    render h inputs baseline w Ygrid igrid =
    Done ((store h inputs (update d0 (widget_dict w)),
           {| ss_inputs := Some inputs; ss_baseline := Some baseline |}),
          Some f) /\
    frame_shows f (params_of_widgets w)
      (params_in (snapshot_of h baseline)) Ygrid igrid.
Proof.
  intros (Hin & Hkeys & Hbase).
  set (h' := store h inputs (update d0 (widget_dict w))).
  assert (Hsnap : snapshot_of h' baseline = snapshot_of h baseline).
  { destruct baseline as [| rb]; [reflexivity |]. cbn [snapshot_of].
    apply nth_error_store_other. apply (Hbase rb eq_refl). }
  assert (Hb' : forall rb, baseline = Snapshot rb ->
                exists db, nth_error h' rb = Some db /\ has_keys db).
  { intros rb Hrb. destruct (Hbase rb Hrb) as (Hne & db & Hdb & Hk).
    exists db. split; [| exact Hk].
    unfold h'. rewrite nth_error_store_other by exact Hne. exact Hdb. }
  destruct (baseline_curves_ok h' baseline Ygrid igrid Hb') as [HAD HIS].
  rewrite Hsnap in HAD, HIS.
  destruct (AD_line_of_equilibrium (params_of_widgets w) Ygrid)
    as (res & Hres & HADnow & y & Hy).
  eexists. split.
  - unfold render, sync_inputs, load. rewrite Hin. cbn [and_then].
    fold h'. rewrite Hres. cbn [of_model and_then].
    rewrite HADnow. cbn [and_then]. rewrite Hy. cbn [and_then].
    rewrite HAD. cbn [and_then]. rewrite HIS. cbn [and_then].
    reflexivity.
  - unfold frame_shows. cbn [kc AD AD_b LM Yvals_IS Yb_IS LM_b].
    repeat split; try assumption; try reflexivity;
      destruct (params_in (snapshot_of h baseline)); reflexivity.
Qed.

End ScriptFacts.

Section SessionFacts.

Open Scope string_scope.

(** The inputs dict an execution starts from: the stored one, or a copy of
    [DEFAULTS] on the first visit. *)
Lemma ensure_session_ok (s : state) :
  well_formed s ->
  exists h1 inputs baseline d0,
    ensure_session s = (h1, inputs, baseline) /\
    session_ok h1 inputs baseline d0 /\
    d0 = start_inputs s /\
    snapshot_of h1 baseline = baseline_dict s.
Proof.
  destruct s as [h [oi ob]]. unfold well_formed, start_inputs, inputs_dict,
    baseline_dict, ensure_session. cbn [fst snd ss_inputs ss_baseline].
  intros [Hin Hbase].
  set (baseline := match ob with Some b => b | None => PyNone end).
  assert (Hsnap : forall rb, baseline = Snapshot rb ->
            (exists db, nth_error h rb = Some db /\ has_keys db) /\
            oi <> Some rb).
  { intros rb Hrb. apply Hbase. unfold baseline in Hrb.
    destruct ob as [b |]; [now subst b | discriminate]. }
  assert (Hview : match ob with Some b => snapshot_of h b | None => None end
                  = snapshot_of h baseline).
  { unfold baseline. destruct ob; reflexivity. }
  destruct oi as [r |].
  - destruct (Hin r eq_refl) as (d & Hd & Hkeys).
    exists h, r, baseline, d. rewrite Hd.
    split; [reflexivity |]. split; [| split; [reflexivity | now rewrite Hview]].
    split; [exact Hd |]. split; [exact Hkeys |].
    intros rb Hrb. destruct (Hsnap rb Hrb) as [Hdb Hne].
    split; [congruence | exact Hdb].
  - exists (fst (alloc h DEFAULTS)), (snd (alloc h DEFAULTS)), baseline, DEFAULTS.
    split; [reflexivity |]. split; [| split; [reflexivity |]].
    + split; [apply nth_error_alloc_new |]. split; [apply has_keys_DEFAULTS |].
      intros rb Hrb. destruct (Hsnap rb Hrb) as [(db & Hdb & Hk) _].
      split; [apply (alloc_fresh h DEFAULTS db rb Hdb) |].
      exists db. split; [apply nth_error_alloc_old; exact Hdb | exact Hk].
    + rewrite Hview. destruct baseline as [| rb]; [reflexivity |].
      destruct (Hsnap rb eq_refl) as [(db & Hdb & _) _].
      cbn [snapshot_of]. rewrite Hdb. apply nth_error_alloc_old. exact Hdb.
Qed.

(** Lines 79-80: a click stores a copy of the inputs as they stand. *)
Lemma capture_ok (h1 : heap) (inputs : ref) (baseline : baseline_value)
    (d0 : dict float) (clicked : bool) :
  session_ok h1 inputs baseline d0 ->
  exists h2 b2,
    (if clicked then capture_baseline h1 inputs else Done (h1, baseline))
    = Done (h2, b2) /\
    session_ok h2 inputs b2 d0 /\
    snapshot_of h2 b2 = (if clicked then Some d0 else snapshot_of h1 baseline).
Proof.
  intros Hok. destruct clicked.
  - destruct Hok as (Hin & Hkeys & _).
    exists (fst (alloc h1 d0)), (Snapshot (snd (alloc h1 d0))).
    split; [unfold capture_baseline, load; rewrite Hin; reflexivity |].
    split; [| apply nth_error_alloc_new].
    split; [apply nth_error_alloc_old; exact Hin |]. split; [exact Hkeys |].
    intros rb Hrb. inversion Hrb; subst rb.
    split; [intros E; apply (alloc_fresh h1 d0 d0 inputs Hin); symmetry; exact E |].
    exists d0. split; [apply nth_error_alloc_new | exact Hkeys].
  - exists h1, baseline.
    split; [reflexivity | split; [exact Hok | reflexivity]].
Qed.

Lemma well_formed_after_sync (h : heap) (inputs : ref)
    (baseline : baseline_value) (d0 d1 : dict float) :
  session_ok h inputs baseline d0 -> has_keys d1 ->
  let s' := (store h inputs d1,
             {| ss_inputs := Some inputs; ss_baseline := Some baseline |}) in
  well_formed s' /\
  inputs_dict s' = Some d1 /\
  baseline_dict s' = snapshot_of h baseline.
Proof.
  intros (Hin & _ & Hbase) Hd1 s'. unfold s', well_formed, inputs_dict, baseline_dict.
  cbn [fst snd ss_inputs ss_baseline].
  rewrite (nth_error_store_same h inputs d1 d0 Hin).
  split; [split |].
  - intros r Hr. inversion Hr; subst r. exists d1.
    split; [apply (nth_error_store_same h inputs d1 d0 Hin) | exact Hd1].
  - intros rb Hrb. inversion Hrb; subst baseline.
    destruct (Hbase rb eq_refl) as (Hne & db & Hdb & Hk).
    split; [| congruence]. exists db.
    split; [rewrite nth_error_store_other by exact Hne; exact Hdb | exact Hk].
  - split; [reflexivity |]. destruct baseline as [| rb]; [reflexivity |].
    cbn [snapshot_of]. apply nth_error_store_other. apply (Hbase rb eq_refl).
Qed.

(** An execution without "Reset All", from a sound state. *)
Lemma run_completes (s : state) (w : widgets) (Ygrid igrid : ndarray float) :
  well_formed s -> reset_clicked w = false ->
  exists s' f,
    run s w Ygrid igrid = Done (s', Some f) /\
    well_formed s' /\
    inputs_dict s' = Some (update (start_inputs s) (widget_dict w)) /\
    baseline_dict s' =
      (if capture_clicked w then Some (start_inputs s) else baseline_dict s) /\
    frame_shows f (params_of_widgets w) (params_in (baseline_dict s'))
      Ygrid igrid.
Proof.
  intros Hwf Hreset.
  destruct (ensure_session_ok s Hwf)
    as (h1 & inputs & baseline & d0 & Hens & Hok1 & Hd0 & Hsnap1).
  destruct (capture_ok h1 inputs baseline d0 (capture_clicked w) Hok1)
    as (h2 & b2 & Hcap & Hok2 & Hsnap2).
  destruct (render_ok h2 inputs b2 d0 w Ygrid igrid Hok2) as (f & Hrender & Hshows).
  destruct (well_formed_after_sync h2 inputs b2 d0
              (update d0 (widget_dict w)) Hok2
              (has_keys_update d0 (widget_dict w) (proj1 (proj2 Hok1))))
    as (Hwf' & Hin' & Hbase').
  eexists. exists f. split; [| split; [exact Hwf' | split; [| split]]].
  - unfold run. rewrite Hens. unfold load.
    rewrite (proj1 Hok1). cbn [and_then].
    rewrite (widget_values_ok d0 (proj1 (proj2 Hok1))). cbn [and_then].
    rewrite Hcap. cbn [and_then]. rewrite Hreset. exact Hrender.
  - rewrite Hin', Hd0. reflexivity.
  - rewrite Hbase', Hsnap2, Hsnap1, Hd0. reflexivity.
  - rewrite Hbase'. exact Hshows.
Qed.

(** An execution in which "Reset All" was clicked, from a sound state. *)
Lemma run_resets (s : state) (w : widgets) (Ygrid igrid : ndarray float) :
  well_formed s -> reset_clicked w = true ->
  exists s',
    run s w Ygrid igrid = Done (s', None) /\
    well_formed s' /\
    inputs_dict s' = Some DEFAULTS /\
    ss_baseline (snd s') = Some PyNone.
Proof.
  intros Hwf Hreset.
  destruct (ensure_session_ok s Hwf)
    as (h1 & inputs & baseline & d0 & Hens & Hok1 & _ & _).
  destruct (capture_ok h1 inputs baseline d0 (capture_clicked w) Hok1)
    as (h2 & b2 & Hcap & _ & _).
  exists (reset_all h2). split; [| split; [| split]].
  - unfold run. rewrite Hens. unfold load.
    rewrite (proj1 Hok1). cbn [and_then].
    rewrite (widget_values_ok d0 (proj1 (proj2 Hok1))). cbn [and_then].
    rewrite Hcap. cbn [and_then]. rewrite Hreset. reflexivity.
  - unfold reset_all, well_formed. cbn [alloc fst snd ss_inputs ss_baseline].
    split; [| intros rb Hrb; discriminate].
    intros r Hr. inversion Hr; subst r. exists DEFAULTS.
    split; [apply (nth_error_alloc_new h2 DEFAULTS) | apply has_keys_DEFAULTS].
  - unfold reset_all, inputs_dict. cbn [alloc fst snd ss_inputs].
    apply (nth_error_alloc_new h2 DEFAULTS).
  - reflexivity.
Qed.

Lemma well_formed_first_visit : well_formed first_visit.
Proof. split; intros r Hr; discriminate. Qed.

Lemma run_preserves_well_formed (s s' : state) (w : widgets)
    (Ygrid igrid : ndarray float) (f : option frame) :
  well_formed s -> run s w Ygrid igrid = Done (s', f) -> well_formed s'.
Proof.
  intros Hwf Hrun. destruct (reset_clicked w) eqn:Hreset.
  - destruct (run_resets s w Ygrid igrid Hwf Hreset) as (s1 & Hrun1 & Hwf1 & _).
    rewrite Hrun1 in Hrun. inversion Hrun; subst. exact Hwf1.
  - destruct (run_completes s w Ygrid igrid Hwf Hreset)
      as (s1 & f1 & Hrun1 & Hwf1 & _).
    rewrite Hrun1 in Hrun. inversion Hrun; subst. exact Hwf1.
Qed.

End SessionFacts.

(** ** Properties of the session *)

Section SessionProperties.

Open Scope string_scope.

(** The invariant of the session. *)
Lemma reachable_well_formed (s : state) :
  reachable s -> well_formed s.
Proof.
  induction 1 as [| s s' w Ygrid igrid f _ IH Hrun].
  - apply well_formed_first_visit.
  - apply (run_preserves_well_formed s s' w Ygrid igrid f IH Hrun).
Qed.

Lemma reachable_captured_visit : reachable captured_visit.
Proof.
  apply (reach_run first_visit captured_visit capture_click [] []
           (Some (shown (run first_visit capture_click [] [])))).
  - apply reach_first_visit.
  - vm_compute. reflexivity.
Qed.

(** X1. In every session state the script can reach, the session inputs
    and the baseline snapshot (when there is one) are dicts with all ten
    input keys, and they are two distinct objects. *)
Theorem reachable_session_sound (s : state) :
  reachable s ->
  (forall r, ss_inputs (snd s) = Some r ->
     exists d, inputs_dict s = Some d /\ has_keys d) /\
  (forall rb, ss_baseline (snd s) = Some (Snapshot rb) ->
     (exists d, baseline_dict s = Some d /\ has_keys d) /\
     ss_inputs (snd s) <> Some rb).
Proof.
  intros Hreach. apply reachable_well_formed in Hreach.
  destruct Hreach as [Hin Hbase]. split.
  - intros r Hr. unfold inputs_dict. rewrite Hr. apply Hin. exact Hr.
  - intros rb Hrb. unfold baseline_dict. rewrite Hrb. apply Hbase. exact Hrb.
Qed.

Lemma reachable_session_sound_witness :
  reachable captured_visit /\
  (forall r, ss_inputs (snd captured_visit) = Some r ->
     exists d, inputs_dict captured_visit = Some d /\ has_keys d) /\
  (forall rb, ss_baseline (snd captured_visit) = Some (Snapshot rb) ->
     (exists d, baseline_dict captured_visit = Some d /\ has_keys d) /\
     ss_inputs (snd captured_visit) <> Some rb).
Proof.
  split; [apply reachable_captured_visit |].
  apply (reachable_session_sound captured_visit).
  apply reachable_captured_visit.
Defined.

(** X2. From a reachable session state an execution raises neither
    [KeyError] nor [ZeroDivisionError], whatever the widgets return and
    whichever buttons were clicked. *)
Theorem script_never_raises (s : state) (w : widgets)
    (Ygrid igrid : ndarray float) :
  reachable s ->
  exists s' f, run s w Ygrid igrid = Done (s', f).
Proof.
  intros Hreach. apply reachable_well_formed in Hreach.
  destruct (reset_clicked w) eqn:Hreset.
  - destruct (run_resets s w Ygrid igrid Hreach Hreset) as (s' & Hrun & _).
    now exists s', None.
  - destruct (run_completes s w Ygrid igrid Hreach Hreset)
      as (s' & f & Hrun & _).
    now exists s', (Some f).
Qed.

Lemma script_never_raises_witness :
  reachable captured_visit /\
  exists s' f, run captured_visit singular_widgets [0; 1]%float [0; 1]%float
               = Done (s', f).
Proof.
  split; [apply reachable_captured_visit |].
  apply (script_never_raises captured_visit singular_widgets).
  apply reachable_captured_visit.
Defined.

(** X3. After an execution that was not reset, the session inputs hold the
    widget values under all ten keys, whatever they held before, and read
    back as the parameters the model was called with. *)
Theorem inputs_follow_widgets (s : state) (w : widgets)
    (Ygrid igrid : ndarray float) :
  reachable s -> reset_clicked w = false ->
  exists s' f d,
    run s w Ygrid igrid = Done (s', Some f) /\
    inputs_dict s' = Some d /\
    (forall k v, In (k, v) (widget_dict w) -> getitem d k = Some v) /\
    params_of_dict d = Done (params_of_widgets w) /\
    kc_equilibrium (params_of_widgets w) = Ok (kc f).
Proof.
  intros Hreach Hreset. apply reachable_well_formed in Hreach.
  destruct (run_completes s w Ygrid igrid Hreach Hreset)
    as (s' & f & Hrun & _ & Hin & _ & Hshows).
  exists s', f, (update (start_inputs s) (widget_dict w)).
  split; [exact Hrun |]. split; [exact Hin |]. split; [| split].
  - intros k v Hkv. apply getitem_update_in; [apply widget_dict_keys | exact Hkv].
  - apply params_of_synced.
  - apply Hshows.
Qed.

Lemma inputs_follow_widgets_witness :
  reachable captured_visit /\ reset_clicked singular_widgets = false /\
  exists s' f d,
    run captured_visit singular_widgets [0; 1]%float [0; 1]%float
    = Done (s', Some f) /\
    inputs_dict s' = Some d /\
    (forall k v, In (k, v) (widget_dict singular_widgets) ->
                 getitem d k = Some v) /\
    params_of_dict d = Done (params_of_widgets singular_widgets) /\
    kc_equilibrium (params_of_widgets singular_widgets) = Ok (kc f).
Proof.
  split; [apply reachable_captured_visit |]. split; [reflexivity |].
  apply (inputs_follow_widgets captured_visit singular_widgets);
    [apply reachable_captured_visit | reflexivity].
Defined.

(** X4. An execution without a click leaves the baseline snapshot as it
    was: the in-place update of the session inputs does not reach it. *)
Theorem baseline_kept_without_click (s : state) (w : widgets)
    (Ygrid igrid : ndarray float) :
  reachable s -> capture_clicked w = false -> reset_clicked w = false ->
  exists s' f,
    run s w Ygrid igrid = Done (s', Some f) /\
    baseline_dict s' = baseline_dict s.
Proof.
  intros Hreach Hcap Hreset. apply reachable_well_formed in Hreach.
  destruct (run_completes s w Ygrid igrid Hreach Hreset)
    as (s' & f & Hrun & _ & _ & Hbase & _).
  exists s', f. split; [exact Hrun |]. rewrite Hbase, Hcap. reflexivity.
Qed.

Lemma baseline_kept_without_click_witness :
  reachable captured_visit /\
  capture_clicked singular_widgets = false /\
  reset_clicked singular_widgets = false /\
  exists s' f,
    run captured_visit singular_widgets [0; 1]%float [0; 1]%float
    = Done (s', Some f) /\
    baseline_dict s' = baseline_dict captured_visit.
Proof.
  split; [apply reachable_captured_visit |].
  split; [reflexivity |]. split; [reflexivity |].
  apply (baseline_kept_without_click captured_visit singular_widgets);
    [apply reachable_captured_visit | reflexivity | reflexivity].
Defined.

(** X5. "Capture baseline" stores the session inputs as they stood when the
    execution began (the widget values of the execution before, or
    [DEFAULTS] on the first visit), not the values the widgets return in the
    capturing execution; the dashed curves of that execution are drawn from
    the stored values. *)
Theorem capture_stores_start_inputs (s : state) (w : widgets)
    (Ygrid igrid : ndarray float) :
  reachable s -> capture_clicked w = true -> reset_clicked w = false ->
  exists s' f,
    run s w Ygrid igrid = Done (s', Some f) /\
    baseline_dict s' = Some (start_inputs s) /\
    frame_shows f (params_of_widgets w)
      (params_in (Some (start_inputs s))) Ygrid igrid.
Proof.
  intros Hreach Hcap Hreset. apply reachable_well_formed in Hreach.
  destruct (run_completes s w Ygrid igrid Hreach Hreset)
    as (s' & f & Hrun & _ & _ & Hbase & Hshows).
  rewrite Hcap in Hbase. rewrite Hbase in Hshows.
  exists s', f. repeat split; try assumption; apply Hshows.
Qed.

Lemma capture_stores_start_inputs_witness :
  reachable first_visit /\
  capture_clicked capture_click = true /\
  reset_clicked capture_click = false /\
  exists s' f,
    run first_visit capture_click [0; 1]%float [0; 1]%float
    = Done (s', Some f) /\
    baseline_dict s' = Some (start_inputs first_visit) /\
    frame_shows f (params_of_widgets capture_click)
      (params_in (Some (start_inputs first_visit))) [0; 1]%float [0; 1]%float.
Proof.
  split; [apply reach_first_visit |].
  split; [reflexivity |]. split; [reflexivity |].
  apply (capture_stores_start_inputs first_visit capture_click);
    [apply reach_first_visit | reflexivity | reflexivity].
Defined.

End SessionProperties.

Section SessionComposition.

Open Scope string_scope.

(** X6. The dashed curves are the solid curves of the execution before the
    capture: after an execution with widget values [w1], a capturing
    execution and any later execution without a click both draw, as their
    baseline, the curves of [w1] (over their own grids), whatever their own
    widget values are. *)
Theorem baseline_shows_earlier_values (s0 : state) (w1 w2 w3 : widgets)
    (Y1 i1 Y2 i2 Y3 i3 : ndarray float) :
  reachable s0 ->
  reset_clicked w1 = false ->
  capture_clicked w2 = true -> reset_clicked w2 = false ->
  capture_clicked w3 = false -> reset_clicked w3 = false ->
  exists s1 f1 s2 f2 s3 f3,
    run s0 w1 Y1 i1 = Done (s1, Some f1) /\
    run s1 w2 Y2 i2 = Done (s2, Some f2) /\
    run s2 w3 Y3 i3 = Done (s3, Some f3) /\
    frame_shows f2 (params_of_widgets w2) (Some (params_of_widgets w1)) Y2 i2 /\
    frame_shows f3 (params_of_widgets w3) (Some (params_of_widgets w1)) Y3 i3 /\
    (Y2 = Y1 -> AD_b f2 = Some (AD f1) /\ LM_b f2 = Some (LM f1)) /\
    (i2 = i1 -> Yb_IS f2 = Some (Yvals_IS f1)).
Proof.
  intros Hreach Hr1 Hc2 Hr2 Hc3 Hr3.
  apply reachable_well_formed in Hreach.
  destruct (run_completes s0 w1 Y1 i1 Hreach Hr1)
    as (s1 & f1 & Hrun1 & Hwf1 & Hin1 & _ & Hshows1).
  destruct (run_completes s1 w2 Y2 i2 Hwf1 Hr2)
    as (s2 & f2 & Hrun2 & Hwf2 & _ & Hbase2 & Hshows2).
  destruct (run_completes s2 w3 Y3 i3 Hwf2 Hr3)
    as (s3 & f3 & Hrun3 & _ & _ & Hbase3 & Hshows3).
  assert (Hsnap : params_in (baseline_dict s2) = Some (params_of_widgets w1)).
  { rewrite Hbase2, Hc2. unfold start_inputs. rewrite Hin1.
    cbn [params_in]. rewrite params_of_synced. reflexivity. }
  rewrite Hc3 in Hbase3. rewrite Hbase3 in Hshows3.
  rewrite Hsnap in Hshows2, Hshows3.
  exists s1, f1, s2, f2, s3, f3.
  split; [exact Hrun1 |]. split; [exact Hrun2 |]. split; [exact Hrun3 |].
  split; [exact Hshows2 |]. split; [exact Hshows3 |].
  destruct Hshows1 as (_ & HAD1 & HIS1 & HLM1 & _).
  destruct Hshows2 as (_ & _ & _ & _ & HADb & HISb & HLMb).
  split.
  - intros ->. rewrite HADb, HLMb, HAD1, HLM1. split; reflexivity.
  - intros ->. rewrite HISb, HIS1. reflexivity.
Qed.

Lemma baseline_shows_earlier_values_witness :
  reachable first_visit /\
  reset_clicked singular_widgets = false /\
  capture_clicked capture_click = true /\
  reset_clicked capture_click = false /\
  capture_clicked singular_widgets = false /\
  exists s1 f1 s2 f2 s3 f3,
    run first_visit singular_widgets [0; 1]%float [0; 4]%float
    = Done (s1, Some f1) /\
    run s1 capture_click [0; 1]%float [0; 4]%float = Done (s2, Some f2) /\
    run s2 singular_widgets [0; 2]%float [0; 2]%float = Done (s3, Some f3) /\
    frame_shows f2 (params_of_widgets capture_click)
      (Some (params_of_widgets singular_widgets)) [0; 1]%float [0; 4]%float /\
    frame_shows f3 (params_of_widgets singular_widgets)
      (Some (params_of_widgets singular_widgets)) [0; 2]%float [0; 2]%float /\
    ([0; 1]%float = [0; 1]%float ->
     AD_b f2 = Some (AD f1) /\ LM_b f2 = Some (LM f1)) /\
    ([0; 4]%float = [0; 4]%float -> Yb_IS f2 = Some (Yvals_IS f1)).
Proof.
  split; [apply reach_first_visit |].
  do 4 (split; [reflexivity |]).
  apply (baseline_shows_earlier_values first_visit singular_widgets
           capture_click singular_widgets);
    [apply reach_first_visit | reflexivity ..].
Defined.

(** X7. "Reset All" ends the execution with the session inputs a fresh copy
    of [DEFAULTS] and no baseline, even when "Capture baseline" was clicked
    in the same execution; the next execution without a capture draws no
    dashed curve. *)
Theorem reset_discards_baseline (s : state) (w w' : widgets)
    (Ygrid igrid Ygrid' igrid' : ndarray float) :
  reachable s -> reset_clicked w = true ->
  capture_clicked w' = false -> reset_clicked w' = false ->
  exists s1 s2 f,
    run s w Ygrid igrid = Done (s1, None) /\
    inputs_dict s1 = Some DEFAULTS /\
    baseline_dict s1 = None /\
    run s1 w' Ygrid' igrid' = Done (s2, Some f) /\
    AD_b f = None /\ Yb_IS f = None /\ LM_b f = None.
Proof.
  intros Hreach Hreset Hcap' Hreset'.
  apply reachable_well_formed in Hreach.
  destruct (run_resets s w Ygrid igrid Hreach Hreset)
    as (s1 & Hrun1 & Hwf1 & Hin1 & Hnone).
  assert (Hbase1 : baseline_dict s1 = None)
    by (unfold baseline_dict; rewrite Hnone; reflexivity).
  destruct (run_completes s1 w' Ygrid' igrid' Hwf1 Hreset')
    as (s2 & f & Hrun2 & _ & _ & Hbase2 & Hshows).
  rewrite Hcap', Hbase1 in Hbase2. rewrite Hbase2 in Hshows.
  destruct Hshows as (_ & _ & _ & _ & HADb & HISb & HLMb).
  exists s1, s2, f. repeat split; assumption.
Qed.

Lemma reset_discards_baseline_witness :
  reachable captured_visit /\
  reset_clicked reset_click = true /\
  capture_clicked singular_widgets = false /\
  reset_clicked singular_widgets = false /\
  exists s1 s2 f,
    run captured_visit reset_click [0; 1]%float [0; 4]%float = Done (s1, None) /\
    inputs_dict s1 = Some DEFAULTS /\
    baseline_dict s1 = None /\
    run s1 singular_widgets [0; 1]%float [0; 4]%float = Done (s2, Some f) /\
    AD_b f = None /\ Yb_IS f = None /\ LM_b f = None.
Proof.
  split; [apply reachable_captured_visit |].
  do 3 (split; [reflexivity |]).
  apply (reset_discards_baseline captured_visit reset_click singular_widgets);
    [apply reachable_captured_visit | reflexivity ..].
Defined.

End SessionComposition.

(** ** NaN and the grid under binary64 *)

Section Binary64Properties.

Open Scope string_scope.
Open Scope float_scope.

Lemma SFcompare_refl (x : spec_float) :
  x <> S754_nan -> SFcompare x x = Some Eq.
Proof.
  destruct x as [s | s | | s m e]; intros Hx; cbn.
  - reflexivity.
  - destruct s; reflexivity.
  - contradiction.
  - rewrite Z.compare_refl.
    assert (Hm : Pos.compare_cont Eq m m = Eq) by apply Pos.compare_refl.
    change PosDef.Pos.compare_cont with Pos.compare_cont.
    rewrite Hm. destruct s; reflexivity.
Qed.

(** [x != x] holds for NaN only. *)
Lemma is_nan_Prim2SF (x : float) :
  is_nan x = true <-> Prim2SF x = S754_nan.
Proof.
  unfold is_nan. rewrite FloatAxioms.eqb_spec. unfold SFeqb. split.
  - intros Hx. destruct (Prim2SF x) eqn:E; try reflexivity;
      rewrite SFcompare_refl in Hx by discriminate; discriminate.
  - intros ->. reflexivity.
Qed.

Lemma sub_nan_l (x y : float) : is_nan x = true -> is_nan (x - y) = true.
Proof.
  rewrite !is_nan_Prim2SF, FloatAxioms.sub_spec. intros ->. reflexivity.
Qed.

Lemma sub_nan_r (x y : float) : is_nan y = true -> is_nan (x - y) = true.
Proof.
  rewrite !is_nan_Prim2SF, FloatAxioms.sub_spec. intros ->.
  destruct (Prim2SF x) as [s | s | | s m e]; reflexivity.
Qed.

Lemma div_nan_r (x y : float) : is_nan y = true -> is_nan (x / y) = true.
Proof.
  rewrite !is_nan_Prim2SF, FloatAxioms.div_spec. intros ->.
  destruct (Prim2SF x) as [s | s | | s m e]; reflexivity.
Qed.

(** A NaN passes the guard: [abs(nan) < 1e-9] is false. *)
Lemma guard_nan (d : float) : is_nan d = true -> guard d = d.
Proof.
  intros Hd. apply is_nan_Prim2SF in Hd.
  unfold guard. cbn [fabs flt lit_1e_9 binary64].
  rewrite FloatAxioms.ltb_spec, FloatAxioms.abs_spec, Hd. reflexivity.
Qed.

(** X14. When [c] or [b1] is NaN, [kc_equilibrium] still returns: the guard
    compares false, the division is by NaN and [Y_star] is NaN. *)
Theorem nan_denominator_gives_nan (p : KCParams float) :
  is_nan (c p) = true \/ is_nan (b1 p) = true ->
  exists r y,
    kc_equilibrium p = Ok r /\
    getitem r "Y_star" = Some y /\
    is_nan y = true.
Proof.
  intros Hnan.
  assert (Hd : is_nan (raw_denom p) = true).
  { unfold raw_denom. cbn [fsub lit_1 binary64].
    destruct Hnan as [Hc | Hb].
    - apply sub_nan_l. apply sub_nan_r. exact Hc.
    - apply sub_nan_r. exact Hb. }
  do 2 eexists.
  split; [apply kc_equilibrium_returns64 |]. split; [reflexivity |].
  rewrite (guard_nan _ Hd). apply div_nan_r. exact Hd.
Qed.

Lemma nan_denominator_gives_nan_witness :
  (is_nan (c nan_propensity64) = true \/ is_nan (b1 nan_propensity64) = true) /\
  exists r y,
    kc_equilibrium nan_propensity64 = Ok r /\
    getitem r "Y_star" = Some y /\
    is_nan y = true.
Proof.
  assert (Hnan : is_nan (c nan_propensity64) = true
                 \/ is_nan (b1 nan_propensity64) = true)
    by (left; reflexivity).
  split; [exact Hnan |].
  apply (nan_denominator_gives_nan nan_propensity64 Hnan).
Defined.

(** X15. The locus is computed rate by rate: over a concatenated grid it is
    the concatenation of the loci, and over a reversed grid the reversed
    locus. *)
Theorem locus_respects_grid_layout (p : KCParams float)
    (g1 g2 : ndarray float) :
  kc_locus p (g1 ++ g2)%list = (kc_locus p g1 ++ kc_locus p g2)%list /\
  kc_locus p (rev g1) = rev (kc_locus p g1).
Proof.
  rewrite !kc_locus_map. split; [apply map_app | apply map_rev].
Qed.

End Binary64Properties.

(** ** The locus against the solver *)

Section LocusVersusSolver.

Open Scope string_scope.
Open Scope float_scope.



(** The two functions can be far apart: here the locus is [0] and the
    solver's [Y_star] is [5]. *)
Example locus_and_solver_far_apart :
  kc_locus cancelling64 [1] = [0] /\
  kc_equilibrium (with_i cancelling64 1) =
  Ok [ ("Y_star", 5); ("AD_intercept", 5); ("AD_slope", 0 + 0) ].
Proof. split; vm_compute; reflexivity. Qed.



End LocusVersusSolver.

(** ** Binary64 rounding, read on integers *)

Section Rounding.

Open Scope Z_scope.

(** ** Digits *)

Lemma digits2_pos_size (p : positive) : digits2_pos p = Pos.size p.
Proof. induction p; cbn; congruence. Qed.

Lemma Zdigits2_log2 (n : Z) : 0 < n -> Zdigits2 n = Z.log2 n + 1.
Proof.
  destruct n as [| p | p]; try lia. intros _. cbn [Zdigits2].
  rewrite digits2_pos_size.
  destruct p as [p | p |]; cbn [Pos.size Z.log2]; lia.
Qed.

Lemma Zdigits2_bounds (n : Z) :
  0 < n -> 2 ^ (Zdigits2 n - 1) <= n < 2 ^ Zdigits2 n.
Proof.
  intros Hn. rewrite Zdigits2_log2 by exact Hn.
  replace (Z.log2 n + 1 - 1) with (Z.log2 n) by lia.
  replace (Z.log2 n + 1) with (Z.succ (Z.log2 n)) by lia.
  apply Z.log2_spec. exact Hn.
Qed.

Lemma Zdigits2_nonneg (n : Z) : 0 <= Zdigits2 n.
Proof. destruct n; cbn; lia. Qed.

Lemma Zdigits2_pos (n : Z) : 0 < n -> 0 < Zdigits2 n.
Proof. intros Hn. rewrite Zdigits2_log2 by exact Hn. pose proof (Z.log2_nonneg n). lia. Qed.

(** The number of digits is determined by the binade. *)
Lemma Zdigits2_unique (n d : Z) :
  0 < d -> 2 ^ (d - 1) <= n < 2 ^ d -> Zdigits2 n = d.
Proof.
  intros Hd [Hlo Hhi].
  assert (Hn : 0 < n) by (pose proof (Z.pow_pos_nonneg 2 (d - 1)); lia).
  rewrite Zdigits2_log2 by exact Hn.
  assert (Z.log2 n = d - 1); [| lia].
  apply Z.log2_unique; [lia |]. replace (Z.succ (d - 1)) with d by lia. lia.
Qed.

Lemma Zdigits2_le (n m : Z) : 0 <= n <= m -> Zdigits2 n <= Zdigits2 m.
Proof.
  intros [Hn Hnm]. destruct (Z.eq_dec n 0) as [-> | Hn0].
  - apply Zdigits2_nonneg.
  - rewrite !Zdigits2_log2 by lia. pose proof (Z.log2_le_mono n m Hnm). lia.
Qed.

Lemma Zdigits2_lt_pow (n d : Z) : 0 <= d -> 0 <= n < 2 ^ d -> Zdigits2 n <= d.
Proof.
  intros Hd [Hn Hlt]. destruct (Z.eq_dec n 0) as [-> | Hn0]; [cbn; lia |].
  rewrite Zdigits2_log2 by lia.
  assert (Z.log2 n < d); [| lia]. apply Z.log2_lt_pow2; lia.
Qed.

Lemma Zdigits2_ge_pow (n d : Z) : 0 <= d -> 2 ^ d <= n -> d + 1 <= Zdigits2 n.
Proof.
  intros Hd Hle.
  assert (Hn : 0 < n) by (pose proof (Z.pow_pos_nonneg 2 d); lia).
  rewrite Zdigits2_log2 by exact Hn.
  assert (d <= Z.log2 n); [| lia]. apply Z.log2_le_pow2; lia.
Qed.

(** ** Truncation with a round bit and a sticky bit *)

Lemma enc_exact (a : Z) : enc a 1 = shr_record_of_loc a loc_Exact.
Proof.
  unfold enc. rewrite Z.mod_1_r, Z.div_1_r. reflexivity.
Qed.

Lemma enc_scale (a b k : Z) : 0 < b -> 0 < k -> enc (a * k) (b * k) = enc a b.
Proof.
  intros Hb Hk. unfold enc.
  rewrite Z.div_mul_cancel_r by lia.
  rewrite Zmult_mod_distr_r.
  f_equal.
  - apply eq_true_iff_eq. rewrite !Z.leb_le. nia.
  - f_equal; f_equal.
    + apply eq_true_iff_eq. rewrite !Z.eqb_eq. nia.
    + apply eq_true_iff_eq. rewrite !Z.eqb_eq. nia.
Qed.

Lemma shr_1_spec (m : Z) (r s : bool) :
  0 <= m ->
  shr_1 {| shr_m := m; shr_r := r; shr_s := s |} =
  {| shr_m := m / 2; shr_r := Z.odd m; shr_s := r || s |}.
Proof.
  intros Hm. destruct m as [| p | p]; [reflexivity | | lia].
  destruct p as [p | p |]; cbn [shr_1].
  - f_equal. change (Z.pos p~1) with (2 * Z.pos p + 1).
    apply Z.div_unique with (r := 1); lia.
  - f_equal. change (Z.pos p~0) with (2 * Z.pos p).
    apply Z.div_unique with (r := 0); lia.
  - reflexivity.
Qed.

(** One more bit cut: the divisor doubles. *)
Lemma shr_1_enc (a b : Z) : 0 <= a -> 0 < b -> shr_1 (enc a b) = enc a (2 * b).
Proof.
  intros Ha Hb. unfold enc.
  pose proof (Z.div_mod a b ltac:(lia)) as Hab.
  pose proof (Z.mod_pos_bound a b Hb) as Hr.
  pose proof (Z.div_pos a b Ha Hb) as Hq.
  rewrite shr_1_spec by exact Hq.
  set (q := a / b) in *. set (r := a mod b) in *.
  pose proof (Z.div_mod q 2 ltac:(lia)) as Hq2m.
  pose proof (Z.mod_pos_bound q 2 ltac:(lia)) as Hm2.
  assert (Hq2 : a / (2 * b) = q / 2).
  { rewrite (Z.mul_comm 2 b), <- Z.div_div by lia. reflexivity. }
  assert (Hr2 : a mod (2 * b) = (q mod 2) * b + r).
  { symmetry. apply Z.mod_unique with (q := q / 2).
    - left. nia.
    - nia. }
  rewrite Hq2, Hr2.
  assert (Hodd : Z.odd q = negb (q mod 2 =? 0)).
  { rewrite Zmod_odd. destruct (Z.odd q); reflexivity. }
  assert (Hcase : q mod 2 = 0 \/ q mod 2 = 1) by lia.
  f_equal.
  - rewrite Hodd. apply eq_true_iff_eq.
    rewrite negb_true_iff, Z.eqb_neq, Z.leb_le.
    destruct Hcase as [E | E]; rewrite E; lia.
  - apply eq_true_iff_eq.
    rewrite orb_true_iff, !andb_true_iff, !negb_true_iff, !Z.eqb_neq, Z.leb_le.
    destruct Hcase as [E | E]; rewrite E; lia.
Qed.

Lemma iter_pos_shr_1_enc (p : positive) (a b : Z) :
  0 <= a -> 0 < b ->
  SpecFloat.iter_pos shr_1 p (enc a b) = enc a (b * 2 ^ Z.pos p).
Proof.
  intros Ha. revert b.
  induction p as [p IH | p IH |]; intros b Hb; cbn [SpecFloat.iter_pos].
  - pose proof (Z.pow_pos_nonneg 2 (Z.pos p) ltac:(lia) ltac:(lia)) as Hp.
    assert (Hpow : 2 ^ Z.pos p~1 = 2 * (2 ^ Z.pos p * 2 ^ Z.pos p)).
    { rewrite <- Z.pow_add_r, <- Z.pow_succ_r by lia. f_equal. lia. }
    rewrite shr_1_enc by assumption.
    rewrite IH by lia. rewrite IH by nia.
    f_equal. rewrite Hpow. ring.
  - pose proof (Z.pow_pos_nonneg 2 (Z.pos p) ltac:(lia) ltac:(lia)) as Hp.
    assert (Hpow : 2 ^ Z.pos p~0 = 2 ^ Z.pos p * 2 ^ Z.pos p).
    { rewrite <- Z.pow_add_r by lia. f_equal. lia. }
    rewrite IH by lia. rewrite IH by nia.
    f_equal. rewrite Hpow. ring.
  - rewrite shr_1_enc by assumption. f_equal. change (2 ^ 1) with 2. ring.
Qed.

(** Cutting [n >= 0] more bits. *)
Lemma shr_enc (a b e n : Z) :
  0 <= a -> 0 < b -> 0 <= n ->
  shr (enc a b) e n = (enc a (b * 2 ^ n), Z.max e (e + n)).
Proof.
  intros Ha Hb Hn. unfold shr. destruct n as [| p | p]; [| | lia].
  - rewrite Z.pow_0_r, Z.mul_1_r. f_equal. lia.
  - rewrite iter_pos_shr_1_enc by assumption. f_equal. lia.
Qed.

(** ** Rounding to nearest, ties to even, of a quotient *)

Lemma tcode_enc_mono (a a' b : Z) :
  0 < b -> a <= a' -> tcode (enc a b) <= tcode (enc a' b).
Proof.
  intros Hb Hle. unfold tcode, enc. cbn [shr_m shr_r shr_s].
  pose proof (Z.div_mod a b ltac:(lia)) as Ha.
  pose proof (Z.div_mod a' b ltac:(lia)) as Ha'.
  pose proof (Z.mod_pos_bound a b Hb) as Hr.
  pose proof (Z.mod_pos_bound a' b Hb) as Hr'.
  pose proof (Z.div_le_mono a a' b Hb Hle) as Hq.
  set (q := a / b) in *. set (q' := a' / b) in *.
  set (r := a mod b) in *. set (r' := a' mod b) in *.
  destruct (Z.eq_dec q q') as [E | NE].
  - assert (Hrr : r <= r') by nia. rewrite E.
    destruct (Z.leb_spec b (2 * r)); destruct (Z.leb_spec b (2 * r'));
      destruct (Z.eqb_spec r 0); destruct (Z.eqb_spec r' 0);
      destruct (Z.eqb_spec (2 * r) b); destruct (Z.eqb_spec (2 * r') b);
      cbn; lia.
  - assert (q + 1 <= q') by lia.
    destruct (b <=? 2 * r); destruct (b <=? 2 * r');
      destruct (negb (r =? 0) && negb (2 * r =? b));
      destruct (negb (r' =? 0) && negb (2 * r' =? b)); lia.
Qed.

Lemma rne_tcode_mono (x y : shr_record) :
  tcode x <= tcode y -> rne x <= rne y.
Proof.
  destruct x as [m r s], y as [m' r' s']. unfold tcode, rne.
  cbn [shr_m shr_r shr_s loc_of_shr_record].
  intros Hle.
  destruct r, s, r', s'; cbn [round_nearest_even];
    try destruct (Z.even m) eqn:Em; try destruct (Z.even m') eqn:Em';
    try lia.
  (* a tie rounded up against an exact or low value of the next integer *)
  all: try (assert (m = m' \/ m + 1 <= m') as [-> | ?] by lia;
            [congruence | lia]).
Qed.

Lemma RN_mono (a a' b : Z) : 0 < b -> a <= a' -> RN a b <= RN a' b.
Proof.
  intros Hb Hle. apply rne_tcode_mono, tcode_enc_mono; assumption.
Qed.

Lemma RN_scale (a b k : Z) : 0 < b -> 0 < k -> RN (a * k) (b * k) = RN a b.
Proof. intros Hb Hk. unfold RN. now rewrite enc_scale. Qed.

Lemma RN_exact (n b : Z) : 0 < b -> RN (n * b) b = n.
Proof.
  intros Hb. unfold RN, rne, enc.
  rewrite Z.div_mul, Z.mod_mul by lia. cbn [shr_m loc_of_shr_record shr_r shr_s].
  destruct (Z.leb_spec b (2 * 0)); [lia |]. reflexivity.
Qed.

Lemma RN_between (a b : Z) : 0 < b -> a / b <= RN a b <= a / b + 1.
Proof.
  intros Hb. unfold RN, rne, enc. cbn [shr_m loc_of_shr_record shr_r shr_s].
  destruct (b <=? 2 * (a mod b));
    destruct (negb (a mod b =? 0) && negb (2 * (a mod b) =? b));
    cbn [round_nearest_even]; try destruct (Z.even (a / b)); lia.
Qed.

Lemma RN_le (a b N : Z) : 0 < b -> a <= N * b -> RN a b <= N.
Proof.
  intros Hb Hle. rewrite <- (RN_exact N b Hb). apply RN_mono; assumption.
Qed.

Lemma RN_ge (a b N : Z) : 0 < b -> N * b <= a -> N <= RN a b.
Proof.
  intros Hb Hle. rewrite <- (RN_exact N b Hb). apply RN_mono; assumption.
Qed.

Lemma RN_nonneg (a b : Z) : 0 < b -> 0 <= a -> 0 <= RN a b.
Proof. intros Hb Ha. apply RN_ge; lia. Qed.

(** ** Rounding a non-negative rational to the binary64 grid

    Magnitudes are counted in units of [2 ^ emin]: the rational [A / B]
    stands for the real number [A / B * 2 ^ emin]. *)

Lemma Zdigits2_upper (n : Z) : 0 <= n -> n < 2 ^ Zdigits2 n.
Proof.
  intros Hn. destruct (Z.eq_dec n 0) as [-> | Hn0]; [cbn; lia |].
  apply Zdigits2_bounds. lia.
Qed.

Lemma pow2_pos (n : Z) : 0 <= n -> 0 < 2 ^ n.
Proof. intros Hn. apply Z.pow_pos_nonneg; lia. Qed.

Lemma pow2_le (n m : Z) : 0 <= n <= m -> 2 ^ n <= 2 ^ m.
Proof. intros H. apply Z.pow_le_mono_r; lia. Qed.

Lemma RND_scale (A B k : Z) : 0 < B -> 0 < k -> RND (A * k) (B * k) = RND A B.
Proof.
  intros HB Hk. unfold RND.
  rewrite Z.div_mul_cancel_r by lia.
  set (n := Z.max (Zdigits2 (A / B) - 53) 0).
  assert (Hn : 0 < 2 ^ n) by (apply pow2_pos; lia).
  replace (B * k * 2 ^ n) with (B * 2 ^ n * k) by ring.
  rewrite RN_scale by lia. reflexivity.
Qed.

Lemma RND_nonneg (A B : Z) : 0 <= A -> 0 < B -> 0 <= RND A B.
Proof.
  intros HA HB. unfold RND.
  set (n := Z.max (Zdigits2 (A / B) - 53) 0).
  assert (Hn : 0 < 2 ^ n) by (apply pow2_pos; lia).
  pose proof (RN_nonneg A (B * 2 ^ n) ltac:(nia) HA). nia.
Qed.

Lemma RND_mono (A A' B : Z) :
  0 <= A <= A' -> 0 < B -> RND A B <= RND A' B.
Proof.
  intros [HA HAA] HB. unfold RND.
  pose proof (Z.div_le_mono A A' B HB HAA) as Hq.
  pose proof (Z.div_pos A B HA HB) as Hq0.
  pose proof (Zdigits2_le (A / B) (A' / B) ltac:(lia)) as Hd.
  pose proof (Zdigits2_nonneg (A / B)) as Hd0.
  set (q := A / B) in *. set (q' := A' / B) in *.
  set (d := Zdigits2 q) in *. set (d' := Zdigits2 q') in *.
  set (n := Z.max (d - 53) 0). set (n' := Z.max (d' - 53) 0).
  assert (Hn : 0 < 2 ^ n) by (apply pow2_pos; lia).
  assert (Hn' : 0 < 2 ^ n') by (apply pow2_pos; lia).
  destruct (Z.eq_dec n n') as [E | NE].
  - rewrite <- E. pose proof (RN_mono A A' (B * 2 ^ n) ltac:(nia) HAA). nia.
  - assert (Hlt : n < n') by lia.
    assert (Hd' : d' = n' + 53) by lia.
    (* below the binade boundary on the left *)
    assert (Hup : RN A (B * 2 ^ n) <= 2 ^ 53).
    { apply RN_le; [nia |].
      pose proof (Zdigits2_upper q Hq0) as Hqd. fold d in Hqd.
      pose proof (pow2_le d (53 + n) ltac:(lia)) as Hp.
      rewrite Z.pow_add_r in Hp by lia.
      pose proof (Z.div_mod A B ltac:(lia)) as HAq.
      pose proof (Z.mod_pos_bound A B HB) as Hr. fold q in HAq.
      nia. }
    (* above it on the right *)
    assert (Hlo : 2 ^ 52 <= RN A' (B * 2 ^ n')).
    { apply RN_ge; [nia |].
      assert (Hq'pos : 0 < q').
      { destruct (Z.eq_dec q' 0) as [E0 | ?]; [| unfold q' in *; lia].
        exfalso. unfold d' in Hd'. rewrite E0 in Hd'. cbn in Hd'. lia. }
      pose proof (Zdigits2_bounds q' Hq'pos) as [Hqd _]. fold d' in Hqd.
      replace (d' - 1) with (52 + n') in Hqd by lia.
      rewrite Z.pow_add_r in Hqd by lia.
      pose proof (Z.div_mod A' B ltac:(lia)) as HAq.
      pose proof (Z.mod_pos_bound A' B HB) as Hr. fold q' in HAq.
      nia. }
    pose proof (pow2_le (53 + n) (52 + n') ltac:(lia)) as Hp.
    rewrite !Z.pow_add_r in Hp by lia.
    nia.
Qed.

Lemma RND_rat (A B A' B' : Z) :
  0 < B -> 0 < B' -> A * B' = A' * B -> RND A B = RND A' B'.
Proof.
  intros HB HB' E.
  rewrite <- (RND_scale A B B' HB HB'), <- (RND_scale A' B' B HB' HB).
  rewrite E. f_equal. ring.
Qed.

Lemma RND_mono_rat (A B A' B' : Z) :
  0 <= A -> 0 < B -> 0 < B' -> A * B' <= A' * B -> RND A B <= RND A' B'.
Proof.
  intros HA HB HB' Hle.
  rewrite <- (RND_scale A B B' HB HB'), <- (RND_scale A' B' B HB' HB).
  replace (B' * B) with (B * B') by ring.
  apply RND_mono; nia.
Qed.

Lemma RND_0 (B : Z) : 0 < B -> RND 0 B = 0.
Proof.
  intros HB. unfold RND. rewrite Z.div_0_l by lia.
  change (Z.max (Zdigits2 0 - 53) 0) with 0. rewrite Z.pow_0_r, !Z.mul_1_r.
  pose proof (RN_exact 0 B HB) as E. rewrite Z.mul_0_l in E. rewrite E. reflexivity.
Qed.

Lemma overflow_to_inf_mono (r r' : Z) :
  r <= r' -> overflow_to_inf r <= overflow_to_inf r'.
Proof.
  intros Hle. unfold overflow_to_inf, KINF.
  assert (2 ^ 2098 <= 2 ^ 2100) by (apply pow2_le; lia).
  destruct (Z.ltb_spec r (2 ^ 2098)); destruct (Z.ltb_spec r' (2 ^ 2098)); lia.
Qed.

Lemma overflow_to_inf_bounds (r : Z) : 0 <= r -> 0 <= overflow_to_inf r <= KINF.
Proof.
  intros Hr. unfold overflow_to_inf, KINF.
  assert (2 ^ 2098 <= 2 ^ 2100) by (apply pow2_le; lia).
  destruct (Z.ltb_spec r (2 ^ 2098)); lia.
Qed.

Lemma ROUND_rat (A B A' B' : Z) :
  0 < B -> 0 < B' -> A * B' = A' * B -> ROUND A B = ROUND A' B'.
Proof. intros HB HB' E. unfold ROUND. now rewrite (RND_rat A B A' B'). Qed.

Lemma ROUND_mono_rat (A B A' B' : Z) :
  0 <= A -> 0 < B -> 0 < B' -> A * B' <= A' * B -> ROUND A B <= ROUND A' B'.
Proof.
  intros HA HB HB' Hle. apply overflow_to_inf_mono, RND_mono_rat; assumption.
Qed.

Lemma ROUND_bounds (A B : Z) : 0 <= A -> 0 < B -> 0 <= ROUND A B <= KINF.
Proof. intros HA HB. apply overflow_to_inf_bounds, RND_nonneg; assumption. Qed.

Lemma ROUND_0 (B : Z) : 0 < B -> ROUND 0 B = 0.
Proof. intros HB. unfold ROUND. rewrite RND_0 by exact HB. reflexivity. Qed.

Lemma ROUNDZ_bounds (A B : Z) : 0 < B -> - KINF <= ROUNDZ A B <= KINF.
Proof.
  intros HB. unfold ROUNDZ. destruct (Z.leb_spec 0 A).
  - pose proof (ROUND_bounds A B ltac:(lia) HB). lia.
  - pose proof (ROUND_bounds (- A) B ltac:(lia) HB). lia.
Qed.

Lemma ROUNDZ_rat (A B A' B' : Z) :
  0 < B -> 0 < B' -> A * B' = A' * B -> ROUNDZ A B = ROUNDZ A' B'.
Proof.
  intros HB HB' E. unfold ROUNDZ.
  destruct (Z.leb_spec 0 A); destruct (Z.leb_spec 0 A'); try nia.
  - apply ROUND_rat; assumption.
  - f_equal. apply ROUND_rat; try assumption. nia.
Qed.

Lemma ROUNDZ_mono_rat (A B A' B' : Z) :
  0 < B -> 0 < B' -> A * B' <= A' * B -> ROUNDZ A B <= ROUNDZ A' B'.
Proof.
  intros HB HB' Hle. unfold ROUNDZ.
  destruct (Z.leb_spec 0 A); destruct (Z.leb_spec 0 A').
  - apply ROUND_mono_rat; assumption.
  - nia.
  - pose proof (ROUND_bounds (- A) B ltac:(lia) HB).
    pose proof (ROUND_bounds A' B' ltac:(lia) HB'). lia.
  - pose proof (ROUND_mono_rat (- A') B' (- A) B ltac:(lia) HB' HB ltac:(nia)). lia.
Qed.

(** ** The rounding step of the binary64 operations *)

Lemma pow2_add (n m : Z) : 0 <= n -> 0 <= m -> 2 ^ (n + m) = 2 ^ n * 2 ^ m.
Proof. intros. apply Z.pow_add_r; assumption. Qed.

Lemma pow2_lt (n m : Z) : 0 <= n < m -> 2 ^ n < 2 ^ m.
Proof. intros H. apply Z.pow_lt_mono_r; lia. Qed.

Lemma fexp_eq (e : Z) : fexp prec emax e = Z.max (e - 53) (- 1074).
Proof. reflexivity. Qed.

Lemma new_location_enc (a b : Z) :
  0 < b -> shr_record_of_loc (a / b) (new_location b (a mod b)) = enc a b.
Proof.
  intros Hb. unfold enc, new_location, new_location_even, new_location_odd.
  pose proof (Z.mod_pos_bound a b Hb) as Hr.
  generalize dependent (a mod b). generalize (a / b). intros q r Hr.
  cbv zeta.
  assert (Hodd : Z.even b = false -> 2 * r <> b).
  { intros Eb E. rewrite <- E, Z.even_mul in Eb. discriminate Eb. }
  destruct (Z.even b) eqn:Eb; destruct (Z.eqb_spec r 0) as [E0 | N0];
    [ | destruct (Z.compare_spec (2 * r) b)
      | | destruct (Z.compare_spec (2 * r + 1) b) ];
    destruct (Z.leb_spec b (2 * r)); destruct (Z.eqb_spec (2 * r) b);
    try lia; try reflexivity; try (exfalso; apply Hodd; [reflexivity | lia]).
Qed.

Lemma RN_rat (a b a' b' : Z) :
  0 < b -> 0 < b' -> a * b' = a' * b -> RN a b = RN a' b'.
Proof.
  intros Hb Hb' E.
  rewrite <- (RN_scale a b b' Hb Hb'), <- (RN_scale a' b' b Hb' Hb).
  rewrite E. f_equal. ring.
Qed.

Lemma Zdigits2_scale (a b k : Z) :
  0 < b -> 1 <= a / b -> 0 <= k ->
  Zdigits2 (a * 2 ^ k / b) = Zdigits2 (a / b) + k.
Proof.
  intros Hb Hq Hk.
  pose proof (Zdigits2_bounds (a / b) ltac:(lia)) as [Hlo Hhi].
  pose proof (Zdigits2_pos (a / b) ltac:(lia)) as Hd.
  set (d := Zdigits2 (a / b)) in *.
  pose proof (Z.div_mod a b ltac:(lia)) as Ha.
  pose proof (Z.mod_pos_bound a b Hb) as Hr.
  pose proof (pow2_pos k Hk) as Hpk.
  assert (H1 : 2 ^ (d - 1) * b <= a) by (set (q := a / b) in *; nia).
  assert (H2 : a < 2 ^ d * b) by (set (q := a / b) in *; nia).
  apply Zdigits2_unique; [lia |].
  replace (d + k - 1) with (d - 1 + k) by lia.
  rewrite !pow2_add by lia.
  split.
  - apply Z.div_le_lower_bound; [lia |].
    replace (b * (2 ^ (d - 1) * 2 ^ k)) with (2 ^ (d - 1) * b * 2 ^ k) by ring.
    apply Z.mul_le_mono_nonneg_r; lia.
  - apply Z.div_lt_upper_bound; [lia |].
    replace (b * (2 ^ d * 2 ^ k)) with (2 ^ d * b * 2 ^ k) by ring.
    apply Z.mul_lt_mono_pos_r; lia.
Qed.

Lemma Zdigits2_shift (m k : Z) :
  0 <= m -> 0 <= k -> Zdigits2 (m / 2 ^ k) = Z.max (Zdigits2 m - k) 0.
Proof.
  intros Hm Hk. pose proof (pow2_pos k Hk) as Hpk.
  destruct (Z.eq_dec m 0) as [-> | Hm0].
  { rewrite Z.div_0_l by lia. cbn. lia. }
  pose proof (Zdigits2_bounds m ltac:(lia)) as [Hlo Hhi].
  pose proof (Zdigits2_pos m ltac:(lia)) as Hd.
  set (d := Zdigits2 m) in *.
  destruct (Z_le_gt_dec d k) as [Hle | Hgt].
  - pose proof (pow2_le d k ltac:(lia)).
    rewrite Z.div_small by lia. cbn. lia.
  - replace (Z.max (d - k) 0) with (d - k) by lia.
    apply Zdigits2_unique; [lia |].
    pose proof (pow2_add (d - k - 1) k ltac:(lia) Hk) as E1.
    pose proof (pow2_add (d - k) k ltac:(lia) Hk) as E2.
    replace (d - k - 1 + k) with (d - 1) in E1 by lia.
    replace (d - k + k) with d in E2 by lia.
    split.
    + apply Z.div_le_lower_bound; [lia |]. lia.
    + apply Z.div_lt_upper_bound; [lia |]. lia.
Qed.

Lemma shr_enc_ge (a b e n : Z) :
  0 <= a -> 0 < b -> 0 <= n -> shr (enc a b) e n = (enc a (b * 2 ^ n), e + n).
Proof.
  intros Ha Hb Hn. rewrite shr_enc by assumption. f_equal. lia.
Qed.

Lemma shr_le0 (mrs : shr_record) (e n : Z) : n <= 0 -> shr mrs e n = (mrs, e).
Proof. intros Hn. destruct n; try reflexivity. lia. Qed.

(** The mantissa after the first shift and rounding, the exponent it is
    counted at, and the two in terms of the rounded rational. *)
Lemma binary_round_aux_key (s : bool) (a b ex A B : Z) :
  0 <= a -> 0 < b -> 0 < B ->
  ex <= fexp prec emax (Zdigits2 (a / b) + ex) ->
  (1 <= a / b \/ ex <= - 1074) ->
  (- 1074 <= ex -> A * b = a * 2 ^ (ex + 1074) * B) ->
  (ex < - 1074 -> A * (b * 2 ^ (- 1074 - ex)) = a * B) ->
  key (binary_round_aux prec emax s (a / b) ex (new_location b (a mod b))) =
  cond_Zopp s (ROUND A B).
Proof.
  intros Ha Hb HB P1 P2 Hhi Hlo.
  rewrite fexp_eq in P1.
  pose proof (Z.div_pos a b Ha Hb) as Hq0.
  pose proof (Z.div_mod a b ltac:(lia)) as Hdm.
  pose proof (Z.mod_pos_bound a b Hb) as Hr.
  pose proof (Zdigits2_nonneg (a / b)) as Hd0.
  pose proof (Zdigits2_upper (a / b) Hq0) as Hqd.
  set (d := Zdigits2 (a / b)) in *.
  set (e1 := Z.max (d + ex - 53) (- 1074)) in *.
  set (n1 := e1 - ex).
  assert (Hn1 : 0 <= n1) by (unfold n1; lia).
  pose proof (pow2_pos n1 Hn1) as Hpn1.
  set (M1 := RN a (b * 2 ^ n1)).
  (* the first shift *)
  unfold binary_round_aux, shr_fexp. rewrite new_location_enc by exact Hb.
  rewrite fexp_eq. fold d. fold e1. fold n1.
  rewrite shr_enc_ge by assumption.
  replace (ex + n1) with e1 by (unfold n1; lia).
  change (round_nearest_even (shr_m (enc a (b * 2 ^ n1)))
            (loc_of_shr_record (enc a (b * 2 ^ n1)))) with M1.
  (* the rounded mantissa has at most one bit too many *)
  assert (HM1lo : 0 <= M1) by (apply RN_nonneg; nia).
  assert (HM1hi : M1 <= 2 ^ 53).
  { apply RN_le; [nia |].
    pose proof (pow2_le d (53 + n1) ltac:(unfold n1; lia)) as Hp.
    rewrite pow2_add in Hp by lia.
    set (q := a / b) in *. nia. }
  (* the rounded rational *)
  set (n := e1 + 1074).
  assert (Hn : 0 <= n) by (unfold n; lia).
  pose proof (pow2_pos n Hn) as Hpn.
  assert (HA : 0 <= A).
  { destruct (Z_le_gt_dec (- 1074) ex) as [Hc | Hc].
    - specialize (Hhi Hc). pose proof (pow2_pos (ex + 1074) ltac:(lia)). nia.
    - specialize (Hlo ltac:(lia)). pose proof (pow2_pos (- 1074 - ex) ltac:(lia)). nia. }
  assert (Hdig : Z.max (Zdigits2 (A / B) - 53) 0 = n).
  { destruct (Z_le_gt_dec (- 1074) ex) as [Hc | Hc].
    - specialize (Hhi Hc).
      assert (EAB : A / B = a * 2 ^ (ex + 1074) / b).
      { rewrite <- (Z.div_mul_cancel_r A B b) by lia.
        rewrite Hhi.
        replace (B * b) with (b * B) by ring.
        rewrite Z.div_mul_cancel_r by lia. reflexivity. }
      rewrite EAB.
      destruct (Z_le_gt_dec 1 (a / b)) as [Hq1 | Hq1].
      + rewrite Zdigits2_scale by lia. fold d. unfold n. lia.
      + assert (ex = - 1074) by lia. subst ex.
        change (-1074 + 1074) with 0. rewrite Z.pow_0_r, Z.mul_1_r.
        fold d. unfold n. lia.
    - specialize (Hlo ltac:(lia)).
      pose proof (pow2_pos (- 1074 - ex) ltac:(lia)) as Hpk.
      assert (EAB : A / B = a / b / 2 ^ (- 1074 - ex)).
      { rewrite Z.div_div by lia.
        rewrite <- (Z.div_mul_cancel_r A B (b * 2 ^ (- 1074 - ex))) by nia.
        rewrite Hlo.
        replace (B * (b * 2 ^ (- 1074 - ex))) with (b * 2 ^ (- 1074 - ex) * B) by ring.
        rewrite Z.div_mul_cancel_r by nia. reflexivity. }
      rewrite EAB, Zdigits2_shift by lia. fold d. unfold n. lia. }
  assert (HRN : RN A (B * 2 ^ n) = M1).
  { unfold M1. apply RN_rat; [nia | nia |].
    destruct (Z_le_gt_dec (- 1074) ex) as [Hc | Hc].
    - specialize (Hhi Hc).
      replace n with (n1 + (ex + 1074)) by (unfold n, n1; lia).
      rewrite pow2_add by lia.
      transitivity (A * b * 2 ^ n1); [ring |]. rewrite Hhi. ring.
    - specialize (Hlo ltac:(lia)).
      replace n1 with (n + (- 1074 - ex)) by (unfold n, n1; lia).
      rewrite pow2_add by lia.
      transitivity (A * (b * 2 ^ (- 1074 - ex)) * 2 ^ n); [ring |]. rewrite Hlo. ring. }
  assert (HRND : RND A B = M1 * 2 ^ n).
  { unfold RND. cbv zeta. rewrite Hdig, HRN. reflexivity. }
  unfold ROUND, overflow_to_inf. rewrite HRND.
  (* the second shift *)
  rewrite <- enc_exact. rewrite fexp_eq.
  assert (He1 : - 1074 <= e1) by (unfold e1; lia).
  destruct (Z.eq_dec M1 (2 ^ 53)) as [Ecarry | Ncarry].
  - rewrite Ecarry.
    change (Zdigits2 (2 ^ 53)) with 54.
    replace (Z.max (54 + e1 - 53) (- 1074) - e1) with 1 by lia.
    rewrite shr_enc_ge by lia.
    change (shr_m (enc (2 ^ 53) (1 * 2 ^ 1))) with (Z.pos (2 ^ 52)).
    cbv iota beta.
    change (emax - prec) with 971.
    destruct (Z.leb_spec (e1 + 1) 971) as [Hfin | Hinf].
    + cbn [key].
      replace (e1 + 1 + 1074) with (1 + n) by (unfold n; lia).
      rewrite pow2_add by lia.
      change (Z.pos (2 ^ 52)) with (2 ^ 52). change (2 ^ 1) with 2.
      pose proof (pow2_lt n 2045 ltac:(unfold n; lia)) as Hlt.
      change (2 ^ 2098) with (2 ^ 53 * 2 ^ 2045).
      destruct (Z.ltb_spec (2 ^ 53 * 2 ^ n) (2 ^ 53 * 2 ^ 2045)) as [_ | Hbad].
      * f_equal. change (2 ^ 53) with (2 ^ 52 * 2). ring.
      * exfalso. assert (0 < 2 ^ 53) by (apply pow2_pos; lia). nia.
    + cbn [key].
      pose proof (pow2_le 2045 n ltac:(unfold n; lia)) as Hle.
      change (2 ^ 2098) with (2 ^ 53 * 2 ^ 2045).
      destruct (Z.ltb_spec (2 ^ 53 * 2 ^ n) (2 ^ 53 * 2 ^ 2045)) as [Hbad | _].
      * exfalso. assert (0 < 2 ^ 53) by (apply pow2_pos; lia). nia.
      * reflexivity.
  - assert (HM1lt : M1 < 2 ^ 53) by lia.
    assert (HdM : Zdigits2 M1 <= 53) by (apply Zdigits2_lt_pow; lia).
    rewrite shr_le0 by lia.
    change (shr_m (enc M1 1)) with (M1 / 1). rewrite Z.div_1_r.
    destruct M1 as [| m | m] eqn:EM1; [| | lia].
    + cbn [key]. rewrite Z.mul_0_l.
      change (0 <? 2 ^ 2098) with true. cbv iota. destruct s; reflexivity.
    + change (emax - prec) with 971.
      destruct (Z.leb_spec e1 971) as [Hfin | Hinf].
      * cbn [key]. fold n.
        pose proof (pow2_le n 2045 ltac:(unfold n; lia)) as Hle.
        change (2 ^ 2098) with (2 ^ 53 * 2 ^ 2045).
        destruct (Z.ltb_spec (Z.pos m * 2 ^ n) (2 ^ 53 * 2 ^ 2045)) as [_ | Hbad].
        -- reflexivity.
        -- exfalso. nia.
      * cbn [key].
        (* in the normal range the rounded mantissa has all its bits *)
        assert (Hd1 : 1 <= d) by lia.
        assert (Hq1 : 0 < a / b).
        { destruct (Z.eq_dec (a / b) 0) as [E0 | ?]; [| lia].
          exfalso. unfold d in Hd1. rewrite E0 in Hd1. cbn in Hd1. lia. }
        assert (Hfull : 2 ^ 52 <= Z.pos m).
        { rewrite <- EM1. apply RN_ge; [nia |].
          pose proof (Zdigits2_bounds (a / b) Hq1) as [Hlow _]. fold d in Hlow.
          replace (d - 1) with (52 + n1) in Hlow by (unfold n1; lia).
          rewrite pow2_add in Hlow by lia.
          set (q := a / b) in *. nia. }
        pose proof (pow2_le 2046 n ltac:(unfold n; lia)) as Hle.
        change (2 ^ 2098) with (2 ^ 52 * 2 ^ 2046).
        destruct (Z.ltb_spec (Z.pos m * 2 ^ n) (2 ^ 52 * 2 ^ 2046)) as [Hbad | _].
        -- exfalso. assert (0 < 2 ^ 52) by (apply pow2_pos; lia). nia.
        -- reflexivity.
Qed.

(** ** The order of binary64 values *)

Lemma valid_finite (s : bool) (m : positive) (e : Z) :
  valid_binary (S754_finite s m e) = true ->
  - 1074 <= e <= 971 /\ Zdigits2 (Z.pos m) <= 53 /\
  (Zdigits2 (Z.pos m) = 53 \/ e = - 1074).
Proof.
  cbn [SpecFloat.valid_binary]. unfold bounded, canonical_mantissa.
  rewrite fexp_eq. intros H. apply andb_prop in H as [Hc He].
  apply Z.eqb_eq in Hc. apply Z.leb_le in He.
  change (emax - prec) with 971 in He. cbn [Zdigits2]. lia.
Qed.

Lemma mantissa_lt (m : positive) : Zdigits2 (Z.pos m) <= 53 -> Z.pos m < 2 ^ 53.
Proof.
  intros Hd. pose proof (Zdigits2_upper (Z.pos m) ltac:(lia)) as Hu.
  pose proof (pow2_le (Zdigits2 (Z.pos m)) 53
                ltac:(pose proof (Zdigits2_nonneg (Z.pos m)); lia)).
  lia.
Qed.

Lemma mantissa_ge (m : positive) : Zdigits2 (Z.pos m) = 53 -> 2 ^ 52 <= Z.pos m.
Proof.
  intros Hd. pose proof (Zdigits2_bounds (Z.pos m) ltac:(lia)) as [Hl _].
  rewrite Hd in Hl. exact Hl.
Qed.

Lemma magnitude_bounds (s : bool) (m : positive) (e : Z) :
  valid_binary (S754_finite s m e) = true ->
  0 < Z.pos m * 2 ^ (e + 1074) < 2 ^ 2098.
Proof.
  intros Hv. apply valid_finite in Hv as (He & Hd & _).
  pose proof (mantissa_lt m Hd) as Hm.
  pose proof (pow2_pos (e + 1074) ltac:(lia)) as Hp.
  pose proof (pow2_le (e + 1074) 2045 ltac:(lia)) as Hle.
  change (2 ^ 2098) with (2 ^ 53 * 2 ^ 2045).
  split; [lia | nia].
Qed.

Lemma magnitude_lt (s1 s2 : bool) (m1 m2 : positive) (e1 e2 : Z) :
  valid_binary (S754_finite s1 m1 e1) = true ->
  valid_binary (S754_finite s2 m2 e2) = true ->
  e1 < e2 ->
  Z.pos m1 * 2 ^ (e1 + 1074) < Z.pos m2 * 2 ^ (e2 + 1074).
Proof.
  intros H1 H2 Hlt.
  apply valid_finite in H1 as (He1 & Hd1 & _).
  apply valid_finite in H2 as (He2 & _ & Hd2).
  destruct Hd2 as [Hd2 | ?]; [| lia].
  pose proof (mantissa_lt m1 Hd1) as Hm1.
  pose proof (mantissa_ge m2 Hd2) as Hm2.
  pose proof (pow2_pos (e1 + 1074) ltac:(lia)) as Hp.
  pose proof (pow2_le (1 + (e1 + 1074)) (e2 + 1074) ltac:(lia)) as Hle.
  rewrite pow2_add in Hle by lia. change (2 ^ 1) with 2 in Hle.
  change (2 ^ 53) with (2 ^ 52 * 2) in Hm1.
  assert (0 < 2 ^ 52) by (apply pow2_pos; lia).
  nia.
Qed.

Lemma magnitude_compare (s1 s2 : bool) (m1 m2 : positive) (e1 e2 : Z) :
  valid_binary (S754_finite s1 m1 e1) = true ->
  valid_binary (S754_finite s2 m2 e2) = true ->
  (Z.pos m1 * 2 ^ (e1 + 1074) ?= Z.pos m2 * 2 ^ (e2 + 1074)) =
  match e1 ?= e2 with
  | Eq => Pos.compare_cont Eq m1 m2
  | Lt => Lt
  | Gt => Gt
  end.
Proof.
  intros H1 H2. destruct (Z.compare_spec e1 e2) as [E | L | G].
  - subst e2. apply valid_finite in H1 as (He1 & _).
    pose proof (pow2_pos (e1 + 1074) ltac:(lia)) as Hp.
    change (Pos.compare_cont Eq m1 m2) with (Z.pos m1 ?= Z.pos m2).
    destruct (Z.compare_spec (Z.pos m1) (Z.pos m2)) as [E | L | G].
    + rewrite E. apply Z.compare_refl.
    + apply Z.compare_lt_iff. nia.
    + apply Z.compare_gt_iff. nia.
  - apply Z.compare_lt_iff. apply (magnitude_lt s1 s2); assumption.
  - apply Z.compare_gt_iff. apply (magnitude_lt s2 s1); assumption.
Qed.

Lemma KINF_large : 2 ^ 2098 < KINF.
Proof. unfold KINF. apply pow2_lt. lia. Qed.

(** On binary64 values other than NaN the comparison is the order of the
    keys. *)
Lemma SFcompare_key (x y : spec_float) :
  valid_binary x = true -> valid_binary y = true ->
  x <> S754_nan -> y <> S754_nan ->
  SFcompare x y = Some (key x ?= key y).
Proof.
  intros Hx Hy Nx Ny. pose proof KINF_large as HK.
  assert (H0 : 0 < 2 ^ 2098) by (apply pow2_pos; lia).
  destruct x as [sx | sx | | sx mx ex]; [| | contradiction |];
    destruct y as [sy | sy | | sy my ey]; try contradiction;
    try pose proof (magnitude_bounds _ _ _ Hx) as Bx;
    try pose proof (magnitude_bounds _ _ _ Hy) as By;
    cbn [SFcompare key]; f_equal.
  - destruct sy; cbn [cond_Zopp]; symmetry;
      [apply Z.compare_gt_iff | apply Z.compare_lt_iff]; lia.
  - destruct sy; cbn [cond_Zopp]; symmetry;
      [apply Z.compare_gt_iff | apply Z.compare_lt_iff]; lia.
  - destruct sx; cbn [cond_Zopp]; symmetry;
      [apply Z.compare_lt_iff | apply Z.compare_gt_iff]; lia.
  - destruct sx, sy; cbn [cond_Zopp]; symmetry;
      [apply Z.compare_eq_iff | apply Z.compare_lt_iff
       | apply Z.compare_gt_iff | apply Z.compare_eq_iff]; lia.
  - destruct sx; cbn [cond_Zopp]; symmetry;
      [apply Z.compare_lt_iff | apply Z.compare_gt_iff]; destruct sy; cbn [cond_Zopp]; lia.
  - destruct sx; cbn [cond_Zopp]; symmetry;
      [apply Z.compare_lt_iff | apply Z.compare_gt_iff]; lia.
  - destruct sy; cbn [cond_Zopp]; symmetry;
      [apply Z.compare_gt_iff | apply Z.compare_lt_iff]; destruct sx; cbn [cond_Zopp]; lia.
  - pose proof (magnitude_compare sx sy mx my ex ey Hx Hy) as Hc.
    pose proof (magnitude_compare sy sx my mx ey ex Hy Hx) as Hc'.
    destruct sx, sy; cbn [cond_Zopp].
    + rewrite Z.compare_opp.
      rewrite (Z.compare_antisym (Z.pos mx * 2 ^ (ex + 1074))
                 (Z.pos my * 2 ^ (ey + 1074))), Hc.
      destruct (ex ?= ey); reflexivity.
    + symmetry. apply Z.compare_lt_iff. lia.
    + symmetry. apply Z.compare_gt_iff. lia.
    + rewrite Hc. reflexivity.
Qed.

Lemma SFleb_key (x y : spec_float) :
  valid_binary x = true -> valid_binary y = true ->
  x <> S754_nan -> y <> S754_nan ->
  SFleb x y = (key x <=? key y).
Proof.
  intros Hx Hy Nx Ny. unfold SFleb, Z.leb.
  rewrite (SFcompare_key x y Hx Hy Nx Ny). destruct (key x ?= key y); reflexivity.
Qed.

Lemma SFltb_key (x y : spec_float) :
  valid_binary x = true -> valid_binary y = true ->
  x <> S754_nan -> y <> S754_nan ->
  SFltb x y = (key x <? key y).
Proof.
  intros Hx Hy Nx Ny. unfold SFltb, Z.ltb.
  rewrite (SFcompare_key x y Hx Hy Nx Ny). destruct (key x ?= key y); reflexivity.
Qed.

Lemma SFltb_not_nan (x y : spec_float) :
  SFltb x y = true -> x <> S754_nan /\ y <> S754_nan.
Proof.
  unfold SFltb. intros H. split; intros ->.
  - discriminate H.
  - destruct x; discriminate H.
Qed.

(** ** The four operations on keys *)

Lemma KINF_pos : 0 < KINF.
Proof. unfold KINF. apply pow2_pos. lia. Qed.

Lemma clamp_mono (f : Z -> Z) (k k' : Z) :
  (forall u v, u <= v -> f u <= f v) ->
  (forall u, - KINF <= f u <= KINF) ->
  k <= k' -> clamp f k <= clamp f k'.
Proof.
  intros Hf Hb Hle. unfold clamp. pose proof KINF_pos.
  pose proof (Hf k k' Hle). pose proof (Hb k). pose proof (Hb k').
  destruct (Z.leb_spec KINF k); destruct (Z.leb_spec KINF k');
    destruct (Z.leb_spec k (- KINF)); destruct (Z.leb_spec k' (- KINF)); lia.
Qed.

Lemma clamp_inside (f : Z -> Z) (k : Z) :
  - KINF < k < KINF -> clamp f k = f k.
Proof.
  intros Hk. unfold clamp.
  destruct (Z.leb_spec KINF k); [lia |].
  destruct (Z.leb_spec k (- KINF)); [lia | reflexivity].
Qed.

Lemma clamp_inf (f : Z -> Z) (s : bool) :
  clamp f (cond_Zopp s KINF) = cond_Zopp s KINF.
Proof.
  pose proof KINF_pos. unfold clamp. destruct s; cbn [cond_Zopp].
  - destruct (Z.leb_spec KINF (- KINF)); [lia |].
    destruct (Z.leb_spec (- KINF) (- KINF)); [reflexivity | lia].
  - destruct (Z.leb_spec KINF KINF); [reflexivity | lia].
Qed.

Lemma ROUNDZ_cond_Zopp (s : bool) (A B : Z) :
  0 < A -> ROUNDZ (cond_Zopp s A) B = cond_Zopp s (ROUND A B).
Proof.
  intros HA. destruct s; cbn [cond_Zopp]; unfold ROUNDZ.
  - destruct (Z.leb_spec 0 (- A)); [lia |]. rewrite Z.opp_involutive. reflexivity.
  - destruct (Z.leb_spec 0 A); [reflexivity | lia].
Qed.

Lemma ROUNDZ_0 (B : Z) : 0 < B -> ROUNDZ 0 B = 0.
Proof. intros HB. unfold ROUNDZ. change (0 <=? 0) with true. apply ROUND_0, HB. Qed.

Lemma ROUNDZ_opp (A B : Z) : 0 < B -> ROUNDZ (- A) B = - ROUNDZ A B.
Proof.
  intros HB. destruct (Z.eq_dec A 0) as [-> | HA].
  - change (- 0) with 0. rewrite ROUNDZ_0 by exact HB. reflexivity.
  - unfold ROUNDZ.
    destruct (Z.leb_spec 0 A); destruct (Z.leb_spec 0 (- A)); try lia.
    rewrite Z.opp_involutive. reflexivity.
Qed.

Lemma key_finite_inside (x : spec_float) :
  valid_binary x = true ->
  match x with S754_zero _ | S754_finite _ _ _ => True | _ => False end ->
  - KINF < key x < KINF.
Proof.
  intros Hv Hf. pose proof KINF_large. pose proof KINF_pos.
  destruct x as [s | s | | s m e]; try contradiction; cbn [key].
  - lia.
  - pose proof (magnitude_bounds s m e Hv). destruct s; cbn [cond_Zopp]; lia.
Qed.

(** A rounding step on an exact mantissa. *)
Lemma binary_round_aux_key_exact (s : bool) (a ex A B : Z) :
  0 < a -> 0 < B ->
  ex <= fexp prec emax (Zdigits2 a + ex) ->
  (- 1074 <= ex -> A = a * 2 ^ (ex + 1074) * B) ->
  (ex < - 1074 -> A * 2 ^ (- 1074 - ex) = a * B) ->
  key (binary_round_aux prec emax s a ex loc_Exact) = cond_Zopp s (ROUND A B).
Proof.
  intros Ha HB P1 Hhi Hlo.
  pose proof (binary_round_aux_key s a 1 ex A B) as H.
  rewrite Z.div_1_r, Z.mod_1_r in H.
  change (new_location 1 0) with loc_Exact in H.
  apply H; lia.
Qed.

Lemma Zdigits2_mul_ge (x y : Z) :
  0 < x -> 0 < y -> Zdigits2 x + Zdigits2 y - 1 <= Zdigits2 (x * y).
Proof.
  intros Hx Hy.
  pose proof (Zdigits2_bounds x Hx) as [Hlx _].
  pose proof (Zdigits2_bounds y Hy) as [Hly _].
  pose proof (Zdigits2_pos x Hx). pose proof (Zdigits2_pos y Hy).
  pose proof (Zdigits2_ge_pow (x * y) (Zdigits2 x - 1 + (Zdigits2 y - 1)) ltac:(lia)) as H1.
  rewrite pow2_add in H1 by lia.
  assert (0 < 2 ^ (Zdigits2 x - 1)) by (apply pow2_pos; lia).
  assert (0 < 2 ^ (Zdigits2 y - 1)) by (apply pow2_pos; lia).
  specialize (H1 ltac:(nia)). lia.
Qed.

Lemma Zdigits2_mul_pow2 (m k : Z) :
  0 < m -> 0 <= k -> Zdigits2 (m * 2 ^ k) = Zdigits2 m + k.
Proof.
  intros Hm Hk.
  pose proof (Zdigits2_scale m 1 k ltac:(lia)) as H.
  rewrite !Z.div_1_r in H. apply H; lia.
Qed.

(** Rounding a binary64 value gives it back. *)
Lemma ROUNDZ_id (x : spec_float) :
  valid_binary x = true ->
  match x with S754_zero _ | S754_finite _ _ _ => True | _ => False end ->
  ROUNDZ (key x) 1 = key x.
Proof.
  intros Hv Hf. destruct x as [s | s | | s m e]; try contradiction; cbn [key].
  - apply ROUNDZ_0. lia.
  - pose proof (magnitude_bounds s m e Hv) as [Hpos Hlt].
    pose proof (valid_finite s m e Hv) as (He & Hd & Hc).
    rewrite ROUNDZ_cond_Zopp by exact Hpos. f_equal.
    unfold ROUND, overflow_to_inf, RND. cbv zeta.
    rewrite Z.div_1_r, Zdigits2_mul_pow2 by lia.
    pose proof (Zdigits2_pos (Z.pos m) ltac:(lia)) as Hd1.
    replace (Z.max (Zdigits2 (Z.pos m) + (e + 1074) - 53) 0) with (e + 1074) by lia.
    rewrite Z.mul_1_l, RN_exact by (apply pow2_pos; lia).
    destruct (Z.ltb_spec (Z.pos m * 2 ^ (e + 1074)) (2 ^ 2098)); [reflexivity | lia].
Qed.

(** *** Multiplication *)

Lemma SFmul_key_finite (sx sy : bool) (mx my : positive) (ex ey : Z) :
  valid_binary (S754_finite sx mx ex) = true ->
  valid_binary (S754_finite sy my ey) = true ->
  key (SFmul prec emax (S754_finite sx mx ex) (S754_finite sy my ey)) =
  ROUNDZ (key (S754_finite sx mx ex) * key (S754_finite sy my ey)) (2 ^ 1074).
Proof.
  intros Hx Hy.
  pose proof (magnitude_bounds sx mx ex Hx) as [Hpx _].
  pose proof (magnitude_bounds sy my ey Hy) as [Hpy _].
  pose proof (valid_finite sx mx ex Hx) as (Hex & Hdx & Hcx).
  pose proof (valid_finite sy my ey Hy) as (Hey & Hdy & Hcy).
  cbn [SFmul key].
  set (Kx := Z.pos mx * 2 ^ (ex + 1074)) in *.
  set (Ky := Z.pos my * 2 ^ (ey + 1074)) in *.
  replace (cond_Zopp sx Kx * cond_Zopp sy Ky) with (cond_Zopp (xorb sx sy) (Kx * Ky))
    by (destruct sx, sy; cbn [cond_Zopp xorb]; ring).
  rewrite ROUNDZ_cond_Zopp by nia.
  change (Z.pos (mx * my)) with (Z.pos mx * Z.pos my).
  apply binary_round_aux_key_exact.
  - lia.
  - apply pow2_pos. lia.
  - rewrite fexp_eq.
    pose proof (Zdigits2_mul_ge (Z.pos mx) (Z.pos my) ltac:(lia) ltac:(lia)).
    pose proof (Zdigits2_pos (Z.pos mx) ltac:(lia)).
    pose proof (Zdigits2_pos (Z.pos my) ltac:(lia)).
    lia.
  - intros Hc. unfold Kx, Ky.
    assert (E : 2 ^ (ex + 1074) * 2 ^ (ey + 1074) = 2 ^ (ex + ey + 1074) * 2 ^ 1074).
    { rewrite <- !pow2_add by lia. f_equal. lia. }
    transitivity (Z.pos mx * Z.pos my * (2 ^ (ex + 1074) * 2 ^ (ey + 1074))); [ring |].
    rewrite E. ring.
  - intros Hc. unfold Kx, Ky.
    assert (E : 2 ^ (ex + 1074) * 2 ^ (ey + 1074) * 2 ^ (- 1074 - (ex + ey)) = 2 ^ 1074).
    { rewrite <- !pow2_add by lia. f_equal. lia. }
    transitivity (Z.pos mx * Z.pos my *
                  (2 ^ (ex + 1074) * 2 ^ (ey + 1074) * 2 ^ (- 1074 - (ex + ey)))); [ring |].
    rewrite E. ring.
Qed.

Lemma SFmul_key (sb : bool) (mb : positive) (eb : Z) (x : spec_float) :
  valid_binary (S754_finite sb mb eb) = true ->
  valid_binary x = true -> x <> S754_nan -> sb = false ->
  key (SFmul prec emax (S754_finite sb mb eb) x) =
  clamp (fun k => ROUNDZ (key (S754_finite sb mb eb) * k) (2 ^ 1074)) (key x).
Proof.
  intros Hb Hx Nx ->.
  destruct x as [s | s | | s m e]; [| | contradiction |].
  - rewrite clamp_inside by (apply key_finite_inside; [exact Hx | exact I]).
    cbn [SFmul key]. rewrite Z.mul_0_r, ROUNDZ_0 by (apply pow2_pos; lia).
    reflexivity.
  - cbn [SFmul key xorb]. rewrite clamp_inf. reflexivity.
  - rewrite clamp_inside by (apply key_finite_inside; [exact Hx | exact I]).
    apply SFmul_key_finite; assumption.
Qed.

(** *** Addition and subtraction *)

Lemma shl_align_spec (m : positive) (e e' : Z) :
  snd (shl_align m e e') = Z.min e e' /\
  Z.pos (fst (shl_align m e e')) = Z.pos m * 2 ^ (e - Z.min e e').
Proof.
  unfold shl_align. destruct (e' - e) as [| p | p] eqn:E; cbn [fst snd].
  - split; [lia |]. replace (e - Z.min e e') with 0 by lia.
    rewrite Z.pow_0_r. lia.
  - split; [lia |]. replace (e - Z.min e e') with 0 by lia.
    rewrite Z.pow_0_r. lia.
  - split; [lia |]. replace (e - Z.min e e') with (Z.pos p) by lia.
    change (Pos.iter xO m p) with (shift_pos p m).
    rewrite shift_pos_correct. change (Z.pow_pos 2 p) with (2 ^ Z.pos p). ring.
Qed.

Lemma binary_round_key (s : bool) (m : positive) (e : Z) :
  - 1074 <= e ->
  key (binary_round prec emax s m e) =
  cond_Zopp s (ROUND (Z.pos m * 2 ^ (e + 1074)) 1).
Proof.
  intros He. unfold binary_round.
  change (Z.pos (digits2_pos m)) with (Zdigits2 (Z.pos m)).
  set (f := fexp prec emax (Zdigits2 (Z.pos m) + e)).
  assert (Hf : f = Z.max (Zdigits2 (Z.pos m) + e - 53) (- 1074)) by reflexivity.
  pose proof (shl_align_spec m e f) as [Hez Hmz].
  destruct (shl_align m e f) as [mz ez]. cbn [fst snd] in Hez, Hmz.
  assert (Hsh : 0 <= e - Z.min e f) by lia.
  apply binary_round_aux_key_exact; try lia.
  - rewrite fexp_eq, Hmz, Zdigits2_mul_pow2 by lia. lia.
  - intros _. rewrite Hmz, Z.mul_1_r, <- Z.mul_assoc, <- pow2_add by lia.
    do 2 f_equal. lia.
Qed.

Lemma binary_normalize_key (S e : Z) :
  - 1074 <= e ->
  key (binary_normalize prec emax S e false) = ROUNDZ (S * 2 ^ (e + 1074)) 1.
Proof.
  intros He. pose proof (pow2_pos (e + 1074) ltac:(lia)) as Hp.
  destruct S as [| m | m]; cbn [binary_normalize].
  - rewrite Z.mul_0_l, ROUNDZ_0 by lia. reflexivity.
  - rewrite binary_round_key by exact He.
    rewrite <- ROUNDZ_cond_Zopp by lia. reflexivity.
  - rewrite binary_round_key by exact He.
    rewrite <- ROUNDZ_cond_Zopp by lia. cbn [cond_Zopp]. f_equal. lia.
Qed.

Lemma aligned_key (s : bool) (m : positive) (e ez : Z) :
  - 1074 <= ez <= e ->
  cond_Zopp s (Z.pos (fst (shl_align m e ez))) * 2 ^ (ez + 1074) =
  key (S754_finite s m e).
Proof.
  intros He. pose proof (shl_align_spec m e ez) as [_ Hm]. rewrite Hm.
  replace (Z.min e ez) with ez by lia. cbn [key].
  replace (e + 1074) with (e - ez + (ez + 1074)) by lia.
  rewrite (pow2_add (e - ez) (ez + 1074)) by lia.
  destruct s; cbn [cond_Zopp]; ring.
Qed.

Lemma SFadd_key_finite (sx sy : bool) (mx my : positive) (ex ey : Z) :
  valid_binary (S754_finite sx mx ex) = true ->
  valid_binary (S754_finite sy my ey) = true ->
  key (SFadd prec emax (S754_finite sx mx ex) (S754_finite sy my ey)) =
  ROUNDZ (key (S754_finite sx mx ex) + key (S754_finite sy my ey)) 1.
Proof.
  intros Hx Hy.
  pose proof (valid_finite sx mx ex Hx) as (Hex & _).
  pose proof (valid_finite sy my ey Hy) as (Hey & _).
  cbn [SFadd]. cbv zeta. rewrite binary_normalize_key by lia.
  rewrite Z.mul_add_distr_r, !aligned_key by lia. reflexivity.
Qed.

Lemma SFsub_key_finite (sx sy : bool) (mx my : positive) (ex ey : Z) :
  valid_binary (S754_finite sx mx ex) = true ->
  valid_binary (S754_finite sy my ey) = true ->
  key (SFsub prec emax (S754_finite sx mx ex) (S754_finite sy my ey)) =
  ROUNDZ (key (S754_finite sx mx ex) - key (S754_finite sy my ey)) 1.
Proof.
  intros Hx Hy.
  pose proof (valid_finite sx mx ex Hx) as (Hex & _).
  pose proof (valid_finite sy my ey Hy) as (Hey & _).
  cbn [SFsub]. cbv zeta. rewrite binary_normalize_key by lia.
  rewrite Z.mul_sub_distr_r, !aligned_key by lia. reflexivity.
Qed.

Lemma SFadd_key (x g : spec_float) :
  valid_binary x = true -> valid_binary g = true ->
  x <> S754_nan -> finite_or_zero g ->
  key (SFadd prec emax x g) = clamp (fun k => ROUNDZ (k + key g) 1) (key x).
Proof.
  intros Hx Hg Nx Fg.
  destruct x as [sx | sx | | sx mx ex]; [| | contradiction |].
  - rewrite clamp_inside by (apply key_finite_inside; [exact Hx | exact I]).
    destruct g as [sg | sg | | sg mg eg]; try contradiction.
    + cbn [key]. rewrite ROUNDZ_0 by lia. destruct sx, sg; reflexivity.
    + cbn [SFadd]. change (key (S754_zero sx)) with 0. rewrite Z.add_0_l.
      symmetry. apply ROUNDZ_id; [exact Hg | exact I].
  - change (key (S754_infinity sx)) with (cond_Zopp sx KINF). rewrite clamp_inf.
    destruct g as [sg | sg | | sg mg eg]; try contradiction; reflexivity.
  - rewrite clamp_inside by (apply key_finite_inside; [exact Hx | exact I]).
    destruct g as [sg | sg | | sg mg eg]; try contradiction.
    + cbn [SFadd]. change (key (S754_zero sg)) with 0. rewrite Z.add_0_r.
      symmetry. apply ROUNDZ_id; [exact Hx | exact I].
    + apply SFadd_key_finite; assumption.
Qed.

Lemma key_negb (s : bool) (m : positive) (e : Z) :
  key (S754_finite (negb s) m e) = - key (S754_finite s m e).
Proof. cbn [key]. destruct s; cbn [negb cond_Zopp]; lia. Qed.

Lemma cond_Zopp_negb (s : bool) (k : Z) : cond_Zopp (negb s) k = - cond_Zopp s k.
Proof. destruct s; cbn [negb cond_Zopp]; lia. Qed.

Lemma SFsub_key (c x : spec_float) :
  valid_binary c = true -> valid_binary x = true ->
  x <> S754_nan -> finite_or_zero c ->
  key (SFsub prec emax c x) = - clamp (fun k => ROUNDZ (k - key c) 1) (key x).
Proof.
  intros Hc Hx Nx Fc.
  assert (Hflip : forall k, - ROUNDZ (k - key c) 1 = ROUNDZ (key c - k) 1).
  { intros k. rewrite <- ROUNDZ_opp by lia. f_equal. lia. }
  destruct x as [sx | sx | | sx mx ex]; [| | contradiction |].
  - rewrite clamp_inside by (apply key_finite_inside; [exact Hx | exact I]).
    rewrite Hflip. change (key (S754_zero sx)) with 0. rewrite Z.sub_0_r.
    rewrite ROUNDZ_id by assumption.
    destruct c as [sc | sc | | sc mc ec]; try contradiction.
    + destruct sc, sx; reflexivity.
    + reflexivity.
  - change (key (S754_infinity sx)) with (cond_Zopp sx KINF). rewrite clamp_inf.
    destruct c as [sc | sc | | sc mc ec]; try contradiction;
      cbn [SFsub key]; apply cond_Zopp_negb.
  - rewrite clamp_inside by (apply key_finite_inside; [exact Hx | exact I]).
    rewrite Hflip.
    destruct c as [sc | sc | | sc mc ec]; try contradiction.
    + cbn [SFsub]. rewrite key_negb. change (key (S754_zero sc)) with 0.
      replace (0 - key (S754_finite sx mx ex)) with (- key (S754_finite sx mx ex)) by lia.
      rewrite ROUNDZ_opp by lia.
      rewrite ROUNDZ_id; [reflexivity | exact Hx | exact I].
    + apply SFsub_key_finite; assumption.
Qed.

(** *** Division *)

Lemma div_eucl_div_mod (a b : Z) : Z.div_eucl a b = (a / b, a mod b).
Proof. unfold Z.div, Z.modulo. destruct (Z.div_eucl a b). reflexivity. Qed.

Lemma SFdiv_key_finite (sx : bool) (mx my : positive) (ex ey : Z) :
  valid_binary (S754_finite sx mx ex) = true ->
  valid_binary (S754_finite false my ey) = true ->
  key (SFdiv prec emax (S754_finite sx mx ex) (S754_finite false my ey)) =
  ROUNDZ (key (S754_finite sx mx ex) * 2 ^ 1074) (key (S754_finite false my ey)).
Proof.
  intros Hx Hy.
  pose proof (magnitude_bounds sx mx ex Hx) as [Hpx _].
  pose proof (magnitude_bounds false my ey Hy) as [Hpy _].
  pose proof (valid_finite sx mx ex Hx) as (Hex & Hdx & Hcx).
  pose proof (valid_finite false my ey Hy) as (Hey & Hdy & Hcy).
  pose proof (Zdigits2_pos (Z.pos mx) ltac:(lia)) as Hd1.
  pose proof (Zdigits2_pos (Z.pos my) ltac:(lia)) as Hd2.
  cbn [SFdiv key cond_Zopp]. unfold SFdiv_core_binary. cbv zeta.
  rewrite fexp_eq.
  set (d1 := Zdigits2 (Z.pos mx)) in *. set (d2 := Zdigits2 (Z.pos my)) in *.
  set (e' := Z.min (Z.max (d1 + ex - (d2 + ey) - 53) (- 1074)) (ex - ey)).
  set (sh := ex - ey - e').
  assert (Hsh : 0 <= sh) by (unfold sh, e'; lia).
  pose proof (pow2_pos sh Hsh) as Hpsh.
  set (m' := match sh with 0 => Z.pos mx | Z.pos _ => Z.shiftl (Z.pos mx) sh | Z.neg _ => 0 end).
  assert (Hm' : m' = Z.pos mx * 2 ^ sh).
  { unfold m'. destruct sh as [| p | p] eqn:E.
    - rewrite Z.pow_0_r. lia.
    - apply Z.shiftl_mul_pow2. lia.
    - lia. }
  clearbody m'. subst m'.
  rewrite div_eucl_div_mod. rewrite xorb_false_r.
  set (Kx := Z.pos mx * 2 ^ (ex + 1074)) in *.
  set (Ky := Z.pos my * 2 ^ (ey + 1074)) in *.
  replace (cond_Zopp sx Kx * 2 ^ 1074) with (cond_Zopp sx (Kx * 2 ^ 1074))
    by (destruct sx; cbn [cond_Zopp]; ring).
  assert (Hp1074 : 0 < 2 ^ 1074) by (apply pow2_pos; lia).
  rewrite ROUNDZ_cond_Zopp by nia.
  (* the quotient has all its bits unless the result is subnormal *)
  assert (Hq : - 1074 < e' -> 2 ^ 52 <= Z.pos mx * 2 ^ sh / Z.pos my).
  { intros Hn. apply Z.div_le_lower_bound; [lia |].
    pose proof (Zdigits2_bounds (Z.pos mx) ltac:(lia)) as [Hlx _]. fold d1 in Hlx.
    pose proof (Zdigits2_upper (Z.pos my) ltac:(lia)) as Huy. fold d2 in Huy.
    pose proof (pow2_le (d2 + 52) (d1 - 1 + sh) ltac:(unfold sh, e' in *; lia)) as Hle.
    rewrite !pow2_add in Hle by lia.
    assert (0 < 2 ^ 52) by (apply pow2_pos; lia).
    assert (0 < 2 ^ (d1 - 1)) by (apply pow2_pos; lia).
    assert (H1 : Z.pos my * 2 ^ 52 <= 2 ^ d2 * 2 ^ 52) by nia.
    assert (H2 : 2 ^ (d1 - 1) * 2 ^ sh <= Z.pos mx * 2 ^ sh) by nia.
    lia. }
  apply binary_round_aux_key.
  - lia.
  - lia.
  - lia.
  - rewrite fexp_eq. destruct (Z_le_gt_dec e' (- 1074)) as [Hc | Hc]; [lia |].
    pose proof (Zdigits2_ge_pow _ 52 ltac:(lia) (Hq ltac:(lia))). lia.
  - destruct (Z_le_gt_dec e' (- 1074)) as [Hc | Hc]; [right; lia | left].
    specialize (Hq ltac:(lia)). assert (0 < 2 ^ 52) by (apply pow2_pos; lia). lia.
  - intros Hc. unfold Kx, Ky.
    assert (E : 2 ^ (ex + 1074) * 2 ^ 1074 =
                2 ^ sh * 2 ^ (e' + 1074) * 2 ^ (ey + 1074)).
    { rewrite <- !pow2_add by lia. f_equal. unfold sh. lia. }
    transitivity (Z.pos mx * Z.pos my * (2 ^ (ex + 1074) * 2 ^ 1074)); [ring |].
    rewrite E. ring.
  - intros Hc. unfold Kx, Ky.
    assert (E : 2 ^ (ex + 1074) * 2 ^ 1074 * 2 ^ (- 1074 - e') =
                2 ^ sh * 2 ^ (ey + 1074)).
    { rewrite <- !pow2_add by lia. f_equal. unfold sh. lia. }
    transitivity (Z.pos mx * Z.pos my *
                  (2 ^ (ex + 1074) * 2 ^ 1074 * 2 ^ (- 1074 - e'))); [ring |].
    rewrite E. ring.
Qed.

Lemma SFdiv_key (x : spec_float) (sd : bool) (md : positive) (ed : Z) :
  valid_binary x = true -> valid_binary (S754_finite sd md ed) = true ->
  x <> S754_nan -> sd = false ->
  key (SFdiv prec emax x (S754_finite sd md ed)) =
  clamp (fun k => ROUNDZ (k * 2 ^ 1074) (key (S754_finite sd md ed))) (key x).
Proof.
  intros Hx Hd Nx ->.
  pose proof (magnitude_bounds false md ed Hd) as [Hpd _].
  destruct x as [s | s | | s m e]; [| | contradiction |].
  - rewrite clamp_inside by (apply key_finite_inside; [exact Hx | exact I]).
    cbn [SFdiv key cond_Zopp]. rewrite Z.mul_0_l, ROUNDZ_0 by lia. reflexivity.
  - cbn [SFdiv]. rewrite xorb_false_r.
    change (key (S754_infinity s)) with (cond_Zopp s KINF).
    rewrite clamp_inf. reflexivity.
  - rewrite clamp_inside by (apply key_finite_inside; [exact Hx | exact I]).
    apply SFdiv_key_finite; assumption.
Qed.

(** ** Monotonicity of the four operations *)

Lemma positive_cases (b : spec_float) :
  SFltb (S754_zero false) b = true ->
  b = S754_infinity false \/ exists m e, b = S754_finite false m e.
Proof.
  destruct b as [s | s | | s m e]; cbn; try discriminate.
  - destruct s; [discriminate | left; reflexivity].
  - destruct s; [discriminate | right; eauto].
Qed.

Lemma key_sign (s : bool) (m : positive) (e : Z) :
  valid_binary (S754_finite s m e) = true ->
  if s then key (S754_finite s m e) < 0 else 0 < key (S754_finite s m e).
Proof.
  intros Hv. pose proof (magnitude_bounds s m e Hv). cbn [key].
  destruct s; cbn [cond_Zopp]; lia.
Qed.

Lemma SFmul_mono (b x y : spec_float) :
  valid_binary b = true -> valid_binary x = true -> valid_binary y = true ->
  SFltb (S754_zero false) b = true ->
  x <> S754_nan -> y <> S754_nan -> key x <= key y ->
  SFmul prec emax b x <> S754_nan -> SFmul prec emax b y <> S754_nan ->
  key (SFmul prec emax b x) <= key (SFmul prec emax b y).
Proof.
  intros Hb Hx Hy Hpos Nx Ny Hle Rx Ry. pose proof KINF_pos as HK.
  destruct (positive_cases b Hpos) as [-> | (m & e & ->)].
  - destruct x as [sx | sx | | sx mx ex]; try contradiction;
      destruct y as [sy | sy | | sy my ey]; try contradiction;
      try (exfalso; apply Rx; reflexivity);
      try (exfalso; apply Ry; reflexivity);
      try pose proof (key_sign _ _ _ Hx);
      try pose proof (key_sign _ _ _ Hy);
      cbn [SFmul xorb key] in *;
      destruct sx, sy; cbn [cond_Zopp] in *; lia.
  - rewrite !SFmul_key by (assumption || reflexivity).
    pose proof (key_sign false m e Hb) as Hkb. cbv iota in Hkb.
    assert (Hp : 0 < 2 ^ 1074) by (apply pow2_pos; lia).
    apply clamp_mono; [| | exact Hle].
    + intros u v Huv. apply ROUNDZ_mono_rat; nia.
    + intros u. apply ROUNDZ_bounds. exact Hp.
Qed.

Lemma SFadd_mono (x y g : spec_float) :
  valid_binary x = true -> valid_binary y = true -> valid_binary g = true ->
  x <> S754_nan -> y <> S754_nan -> g <> S754_nan -> key x <= key y ->
  SFadd prec emax x g <> S754_nan -> SFadd prec emax y g <> S754_nan ->
  key (SFadd prec emax x g) <= key (SFadd prec emax y g).
Proof.
  intros Hx Hy Hg Nx Ny Ng Hle Rx Ry. pose proof KINF_pos as HK.
  destruct g as [sg | sg | | sg mg eg] eqn:Eg; [| | contradiction |].
  - rewrite !SFadd_key by (assumption || exact I).
    apply clamp_mono; [| | exact Hle].
    + intros u v Huv. apply ROUNDZ_mono_rat; lia.
    + intros u. apply ROUNDZ_bounds. lia.
  - destruct x as [sx | sx | | sx mx ex]; try contradiction;
      destruct y as [sy | sy | | sy my ey]; try contradiction;
      cbn [SFadd] in *;
      repeat match goal with
             | s : bool |- _ => destruct s
             end;
      try (exfalso; apply Rx; reflexivity);
      try (exfalso; apply Ry; reflexivity);
      cbn [key cond_Zopp]; lia.
  - rewrite !SFadd_key by (assumption || exact I).
    apply clamp_mono; [| | exact Hle].
    + intros u v Huv. apply ROUNDZ_mono_rat; lia.
    + intros u. apply ROUNDZ_bounds. lia.
Qed.

Lemma SFsub_mono (c x y : spec_float) :
  valid_binary c = true -> valid_binary x = true -> valid_binary y = true ->
  c <> S754_nan -> x <> S754_nan -> y <> S754_nan -> key x <= key y ->
  SFsub prec emax c x <> S754_nan -> SFsub prec emax c y <> S754_nan ->
  key (SFsub prec emax c y) <= key (SFsub prec emax c x).
Proof.
  intros Hc Hx Hy Nc Nx Ny Hle Rx Ry. pose proof KINF_pos as HK.
  assert (Hfin : finite_or_zero c ->
                 key (SFsub prec emax c y) <= key (SFsub prec emax c x)).
  { intros Fc. rewrite !SFsub_key by assumption.
    apply Z.opp_le_mono. rewrite !Z.opp_involutive.
    apply clamp_mono; [| | exact Hle].
    - intros u v Huv. apply ROUNDZ_mono_rat; lia.
    - intros u. apply ROUNDZ_bounds. lia. }
  destruct c as [sc | sc | | sc mc ec] eqn:Ec; [| | contradiction |].
  - apply Hfin. exact I.
  - clear Hfin.
    destruct x as [sx | sx | | sx mx ex]; try contradiction;
      destruct y as [sy | sy | | sy my ey]; try contradiction;
      cbn [SFsub] in *;
      repeat match goal with
             | s : bool |- _ => destruct s
             end;
      try (exfalso; apply Rx; reflexivity);
      try (exfalso; apply Ry; reflexivity);
      cbn [key cond_Zopp]; lia.
  - apply Hfin. exact I.
Qed.

Lemma SFdiv_mono (x y d : spec_float) :
  valid_binary x = true -> valid_binary y = true -> valid_binary d = true ->
  SFltb (S754_zero false) d = true ->
  x <> S754_nan -> y <> S754_nan -> key x <= key y ->
  SFdiv prec emax x d <> S754_nan -> SFdiv prec emax y d <> S754_nan ->
  key (SFdiv prec emax x d) <= key (SFdiv prec emax y d).
Proof.
  intros Hx Hy Hd Hpos Nx Ny Hle Rx Ry. pose proof KINF_pos as HK.
  destruct (positive_cases d Hpos) as [-> | (m & e & ->)].
  - destruct x as [sx | sx | | sx mx ex]; try contradiction;
      destruct y as [sy | sy | | sy my ey]; try contradiction;
      try (exfalso; apply Rx; reflexivity);
      try (exfalso; apply Ry; reflexivity);
      cbn [SFdiv key]; lia.
  - rewrite !SFdiv_key by (assumption || reflexivity).
    pose proof (key_sign false m e Hd) as Hkd. cbv iota in Hkd.
    assert (Hp : 0 < 2 ^ 1074) by (apply pow2_pos; lia).
    apply clamp_mono; [| | exact Hle].
    + intros u v Huv. apply ROUNDZ_mono_rat; nia.
    + intros u. apply ROUNDZ_bounds. exact Hkd.
Qed.

End Rounding.

(** ** The equilibrium against the interest rate *)

Section Monotonicity.

Open Scope string_scope.
Open Scope float_scope.

Lemma not_nan_Prim2SF (x : float) :
  is_nan x = false <-> Prim2SF x <> S754_nan.
Proof.
  split.
  - intros Hx E. apply is_nan_Prim2SF in E. congruence.
  - intros Hx. destruct (is_nan x) eqn:E; [| reflexivity].
    apply is_nan_Prim2SF in E. contradiction.
Qed.

Lemma leb_key (x y : float) :
  is_nan x = false -> is_nan y = false ->
  (x <=? y) = (key (Prim2SF x) <=? key (Prim2SF y))%Z.
Proof.
  intros Nx Ny. rewrite FloatAxioms.leb_spec.
  apply SFleb_key; try apply Prim2SF_valid; apply not_nan_Prim2SF; assumption.
Qed.

Lemma ltb_key (x y : float) :
  is_nan x = false -> is_nan y = false ->
  (x <? y) = (key (Prim2SF x) <? key (Prim2SF y))%Z.
Proof.
  intros Nx Ny. rewrite FloatAxioms.ltb_spec.
  apply SFltb_key; try apply Prim2SF_valid; apply not_nan_Prim2SF; assumption.
Qed.

Lemma ltb_not_nan (x y : float) :
  (x <? y) = true -> is_nan x = false /\ is_nan y = false.
Proof.
  rewrite FloatAxioms.ltb_spec. intros Hlt.
  apply SFltb_not_nan in Hlt as [Nx Ny].
  split; apply not_nan_Prim2SF; assumption.
Qed.

(** A comparison with NaN is false. *)
Lemma ltb_nan (x y : float) :
  is_nan x = true \/ is_nan y = true -> (x <? y) = false.
Proof.
  intros Hn. destruct (x <? y) eqn:E; [| reflexivity].
  apply ltb_not_nan in E as [Nx Ny]. destruct Hn; congruence.
Qed.

Lemma add_nan_l (x y : float) : is_nan x = true -> is_nan (x + y) = true.
Proof.
  rewrite !is_nan_Prim2SF, FloatAxioms.add_spec. intros ->. reflexivity.
Qed.

Lemma add_nan_r (x y : float) : is_nan y = true -> is_nan (x + y) = true.
Proof.
  rewrite !is_nan_Prim2SF, FloatAxioms.add_spec. intros ->.
  destruct (Prim2SF x) as [s | s | | s m e]; reflexivity.
Qed.

Lemma div_nan_l (x y : float) : is_nan x = true -> is_nan (x / y) = true.
Proof.
  rewrite !is_nan_Prim2SF, FloatAxioms.div_spec. intros ->. reflexivity.
Qed.

Lemma not_nan_back (x y : float) :
  (is_nan x = true -> is_nan y = true) -> is_nan y = false -> is_nan x = false.
Proof.
  intros Hxy Hy. destruct (is_nan x); [| reflexivity].
  rewrite Hxy in Hy by reflexivity. discriminate Hy.
Qed.

(** A product by a positive factor keeps the order. *)
Lemma mul_mono (b x y : float) :
  (0 <? b) = true -> is_nan x = false -> is_nan y = false ->
  (x <=? y) = true ->
  is_nan (b * x) = false -> is_nan (b * y) = false ->
  (b * x <=? b * y) = true.
Proof.
  intros Hb Nx Ny Hxy Rx Ry.
  rewrite leb_key in Hxy by assumption. rewrite leb_key by assumption.
  apply Z.leb_le in Hxy. apply Z.leb_le.
  apply not_nan_Prim2SF in Nx, Ny, Rx, Ry.
  rewrite FloatAxioms.ltb_spec in Hb.
  change (Prim2SF 0) with (S754_zero false) in Hb.
  rewrite FloatAxioms.mul_spec in Rx, Ry. rewrite !FloatAxioms.mul_spec.
  unfold SF64mul in *.
  apply SFmul_mono; try apply Prim2SF_valid; assumption.
Qed.

(** Subtracting more gives less. *)
Lemma sub_mono (k x y : float) :
  is_nan k = false -> is_nan x = false -> is_nan y = false ->
  (x <=? y) = true ->
  is_nan (k - x) = false -> is_nan (k - y) = false ->
  (k - y <=? k - x) = true.
Proof.
  intros Nk Nx Ny Hxy Rx Ry.
  rewrite leb_key in Hxy by assumption. rewrite leb_key by assumption.
  apply Z.leb_le in Hxy. apply Z.leb_le.
  apply not_nan_Prim2SF in Nk, Nx, Ny, Rx, Ry.
  rewrite FloatAxioms.sub_spec in Rx, Ry. rewrite !FloatAxioms.sub_spec.
  unfold SF64sub in *.
  apply SFsub_mono; try apply Prim2SF_valid; assumption.
Qed.

(** Adding the same term keeps the order. *)
Lemma add_mono (x y g : float) :
  is_nan x = false -> is_nan y = false -> is_nan g = false ->
  (x <=? y) = true ->
  is_nan (x + g) = false -> is_nan (y + g) = false ->
  (x + g <=? y + g) = true.
Proof.
  intros Nx Ny Ng Hxy Rx Ry.
  rewrite leb_key in Hxy by assumption. rewrite leb_key by assumption.
  apply Z.leb_le in Hxy. apply Z.leb_le.
  apply not_nan_Prim2SF in Nx, Ny, Ng, Rx, Ry.
  rewrite FloatAxioms.add_spec in Rx, Ry. rewrite !FloatAxioms.add_spec.
  unfold SF64add in *.
  apply SFadd_mono; try apply Prim2SF_valid; assumption.
Qed.

(** A quotient by a positive divisor keeps the order. *)
Lemma div_mono (x y d : float) :
  (0 <? d) = true -> is_nan x = false -> is_nan y = false ->
  (x <=? y) = true ->
  is_nan (x / d) = false -> is_nan (y / d) = false ->
  (x / d <=? y / d) = true.
Proof.
  intros Hd Nx Ny Hxy Rx Ry.
  rewrite leb_key in Hxy by assumption. rewrite leb_key by assumption.
  apply Z.leb_le in Hxy. apply Z.leb_le.
  apply not_nan_Prim2SF in Nx, Ny, Rx, Ry.
  rewrite FloatAxioms.ltb_spec in Hd.
  change (Prim2SF 0) with (S754_zero false) in Hd.
  rewrite FloatAxioms.div_spec in Rx, Ry. rewrite !FloatAxioms.div_spec.
  unfold SF64div in *.
  apply SFdiv_mono; try apply Prim2SF_valid; assumption.
Qed.

(** The guard keeps a positive denominator positive. *)
Lemma guard_positive (d : float) : (0 <? d) = true -> (0 <? guard d) = true.
Proof.
  intros Hd. destruct (guard_cases d) as [[_ ->] | [_ ->]].
  - reflexivity.
  - exact Hd.
Qed.

(** The quotient [intercept / denom] of [kc_equilibrium] at two rates, with
    the chain of operations from the rate to the quotient. *)
Lemma Y_star_ordered (p : KCParams float) (i1 i2 : float) :
  (0 <? b2 p) = true ->
  (0 <? raw_denom p) = true ->
  (i1 <? i2) = true ->
  is_nan (AD_intercept_of (with_i p i1) / guard (raw_denom p)) = false ->
  is_nan (AD_intercept_of (with_i p i2) / guard (raw_denom p)) = false ->
  (AD_intercept_of (with_i p i2) / guard (raw_denom p) <=?
   AD_intercept_of (with_i p i1) / guard (raw_denom p)) = true.
Proof.
  intros Hb2 Hden Hi. apply guard_positive in Hden.
  destruct (ltb_not_nan i1 i2 Hi) as [Ni1 Ni2].
  assert (Hle : (i1 <=? i2) = true).
  { rewrite leb_key by assumption. rewrite ltb_key in Hi by assumption.
    apply Z.leb_le. apply Z.ltb_lt in Hi. lia. }
  unfold AD_intercept_of, with_i.
  cbn [a c T G i b0 b2 fadd fsub fmul fdiv binary64].
  set (u := a p - c p * T p + b0 p).
  set (t1 := b2 p * i1). set (t2 := b2 p * i2).
  set (d := guard (raw_denom p)) in *.
  intros Ry1 Ry2.
  pose proof (not_nan_back _ _ (div_nan_l (u - t1 + G p) d) Ry1) as Rw1.
  pose proof (not_nan_back _ _ (div_nan_l (u - t2 + G p) d) Ry2) as Rw2.
  pose proof (not_nan_back _ _ (add_nan_l (u - t1) (G p)) Rw1) as Rv1.
  pose proof (not_nan_back _ _ (add_nan_l (u - t2) (G p)) Rw2) as Rv2.
  pose proof (not_nan_back _ _ (add_nan_r (u - t1) (G p)) Rw1) as NG.
  pose proof (not_nan_back _ _ (sub_nan_r u t1) Rv1) as Rt1.
  pose proof (not_nan_back _ _ (sub_nan_r u t2) Rv2) as Rt2.
  pose proof (not_nan_back _ _ (sub_nan_l u t1) Rv1) as Nu.
  apply div_mono; try assumption.
  apply add_mono; try assumption.
  apply sub_mono; try assumption.
  apply mul_mono; assumption.
Qed.

(** C5. With [b2 > 0] and [1 - c - b1 > 0], and all other fields equal, a
    strictly larger [i] never gives a larger [Y_star]: the comparison
    [y1 < y2] is false, and when both values are numbers [y2 <= y1].  (The
    decrease need not be strict, and a NaN compares false both ways.) *)
Theorem C5_Y_star_never_rises (p : KCParams float) (i1 i2 : float) :
  (0 <? b2 p) = true ->
  (0 <? 1 - c p - b1 p) = true ->
  (i1 <? i2) = true ->
  exists r1 r2 y1 y2,
    kc_equilibrium (with_i p i1) = Ok r1 /\
    kc_equilibrium (with_i p i2) = Ok r2 /\
    getitem r1 "Y_star" = Some y1 /\
    getitem r2 "Y_star" = Some y2 /\
    (y1 <? y2) = false /\
    (is_nan y1 = false -> is_nan y2 = false -> (y2 <=? y1) = true).
Proof.
  intros Hb2 Hden Hi. do 4 eexists.
  split; [apply kc_equilibrium_returns64 |].
  split; [apply kc_equilibrium_returns64 |].
  split; [reflexivity |]. split; [reflexivity |].
  rewrite !raw_denom_with_i.
  pose proof (Y_star_ordered p i1 i2 Hb2 Hden Hi) as Hord.
  set (y1 := AD_intercept_of (with_i p i1) / guard (raw_denom p)) in *.
  set (y2 := AD_intercept_of (with_i p i2) / guard (raw_denom p)) in *.
  split; [| exact Hord].
  destruct (is_nan y1) eqn:N1; [apply ltb_nan; left; exact N1 |].
  destruct (is_nan y2) eqn:N2; [apply ltb_nan; right; exact N2 |].
  specialize (Hord eq_refl eq_refl).
  rewrite leb_key in Hord by assumption. rewrite ltb_key by assumption.
  apply Z.leb_le in Hord. apply Z.ltb_ge. exact Hord.
Qed.

Lemma C5_witness :
  (0 <? b2 defaults64) = true /\
  (0 <? 1 - c defaults64 - b1 defaults64) = true /\
  (0.5 <? 1) = true /\
  exists r1 r2 y1 y2,
    kc_equilibrium (with_i defaults64 0.5) = Ok r1 /\
    kc_equilibrium (with_i defaults64 1) = Ok r2 /\
    getitem r1 "Y_star" = Some y1 /\
    getitem r2 "Y_star" = Some y2 /\
    (y1 <? y2) = false /\
    (is_nan y1 = false -> is_nan y2 = false -> (y2 <=? y1) = true).
Proof.
  split; [reflexivity |]. split; [reflexivity |]. split; [reflexivity |].
  apply (C5_Y_star_never_rises defaults64 0.5 1); reflexivity.
Defined.

End Monotonicity.
